(** * Pixel chatbot: page-context extraction and message rendering

    A shallow embedding of the two pure pieces of the Pixel chatbot widget:

    - [usePageContext.ts]: [getEditorCode], [truncate], [stripHtml] and
      [buildPageContext];
    - [PixelChatBox.tsx]: the body of [MessageRenderer], which splits a chat
      message at fenced code blocks, and the state of the chat box with its
      handlers ([sendMessage], [keyDown], [resetChat]);
    - [api.ts]: what [initPixelChat] and [continuePixelChat] make of a
      response;
    - [PixelChatbot.tsx]: [clampPosition] and the handlers of the widget.

    JavaScript strings are sequences of UTF-16 code units; they are modelled
    as lists of code units ([N]).  Values typed [any] in the source are
    modelled by a small universe of plain-data JavaScript values, and the
    operations that raise a [TypeError] on them return in an error monad. *)

From Stdlib Require Import String Ascii NArith ZArith Bool Lia List.
From Stdlib Require Import DecimalNat QArith Qminmax Lqa.
Close Scope Q_scope.
Import ListNotations.

Local Open Scope list_scope.

(* ================================================================= *)
(** * Strings *)

Module JsString.

(** A string is a list of UTF-16 code units. *)
Definition codeunit := N.
Definition jsstring := list codeunit.

(** Source literals.  Every literal written with [lit] below is pure ASCII,
    so a byte of the Rocq string is a code unit of the JavaScript string. *)
Definition lit (s : string) : jsstring :=
  map N_of_ascii (list_ascii_of_string s).

Definition nl : codeunit := 10%N.        (* "\n" *)
Definition backtick : codeunit := 96%N.  (* "`" *)
Definition lt_sign : codeunit := 60%N.   (* "<" *)
Definition gt_sign : codeunit := 62%N.   (* ">" *)
Definition slash : codeunit := 47%N.     (* "/" *)
Definition emdash : codeunit := 8212%N.  (* U+2014 *)

Fixpoint streq (s t : jsstring) : bool :=
  match s, t with
  | [], [] => true
  | c :: s', d :: t' => N.eqb c d && streq s' t'
  | _, _ => false
  end.

(** Character classes of the regular expressions. *)
Definition inRange (lo hi c : N) : bool := (N.leb lo c && N.leb c hi)%bool.

(** [\d] *)
Definition isDigit (c : codeunit) : bool := inRange 48 57 c.

(** [\w]: [A-Za-z0-9_] *)
Definition isWordChar (c : codeunit) : bool :=
  (inRange 48 57 c || inRange 65 90 c || N.eqb c 95 || inRange 97 122 c)%bool.

(** LineTerminator: the code units that [.] does not match. *)
Definition isLineTerminator (c : codeunit) : bool :=
  (N.eqb c 10 || N.eqb c 13 || N.eqb c 8232 || N.eqb c 8233)%bool.

(** WhiteSpace and LineTerminator: what [String.prototype.trim] removes. *)
Definition isWhiteSpace (c : codeunit) : bool :=
  (inRange 9 13 c || N.eqb c 32 || N.eqb c 160 || N.eqb c 5760
   || inRange 8192 8202 c || N.eqb c 8232 || N.eqb c 8233 || N.eqb c 8239
   || N.eqb c 8287 || N.eqb c 12288 || N.eqb c 65279)%bool.

Fixpoint takeWhile (p : codeunit -> bool) (s : jsstring) : jsstring :=
  match s with
  | [] => []
  | c :: s' => if p c then c :: takeWhile p s' else []
  end.

Fixpoint dropWhile (p : codeunit -> bool) (s : jsstring) : jsstring :=
  match s with
  | [] => []
  | c :: s' => if p c then dropWhile p s' else s
  end.

(** [s.startsWith(p)] *)
Fixpoint startsWith (p s : jsstring) : bool :=
  match p, s with
  | [], _ => true
  | c :: p', d :: s' => N.eqb c d && startsWith p' s'
  | _ :: _, [] => false
  end.

(** [s.indexOf(p)]: the first position at which [p] occurs in [s]. *)
Fixpoint indexOf (p s : jsstring) : option nat :=
  if startsWith p s then Some 0
  else match s with
       | [] => None
       | _ :: s' => option_map S (indexOf p s')
       end.

(** [s.includes(p)] *)
Definition includes (p s : jsstring) : bool :=
  match indexOf p s with Some _ => true | None => false end.

(** [s.slice(a, b)] for [0 <= a <= b]; [s.slice(a)] is [skipn a s]. *)
Definition slice (s : jsstring) (a b : nat) : jsstring :=
  firstn (b - a) (skipn a s).

(** [s.split(sep)] for a separator of one code unit. *)
Fixpoint split (sep : codeunit) (s : jsstring) : list jsstring :=
  match s with
  | [] => [[]]
  | c :: s' =>
      if N.eqb c sep then [] :: split sep s'
      else match split sep s' with
           | l :: ls => (c :: l) :: ls
           | [] => [[c]]
           end
  end.

(** [parts.join(sep)] on an array of strings. *)
Fixpoint join (sep : jsstring) (parts : list jsstring) : jsstring :=
  match parts with
  | [] => []
  | [x] => x
  | x :: rest => x ++ sep ++ join sep rest
  end.

(** [s.trim()] *)
Definition trimStart (s : jsstring) : jsstring := dropWhile isWhiteSpace s.
Definition trimEnd (s : jsstring) : jsstring :=
  rev (dropWhile isWhiteSpace (rev s)).
Definition trim (s : jsstring) : jsstring := trimEnd (trimStart s).

(** Decimal digits of a number, most significant first. *)
Fixpoint uintUnits (d : Decimal.uint) : jsstring :=
  match d with
  | Decimal.Nil => []
  | Decimal.D0 d => 48%N :: uintUnits d
  | Decimal.D1 d => 49%N :: uintUnits d
  | Decimal.D2 d => 50%N :: uintUnits d
  | Decimal.D3 d => 51%N :: uintUnits d
  | Decimal.D4 d => 52%N :: uintUnits d
  | Decimal.D5 d => 53%N :: uintUnits d
  | Decimal.D6 d => 54%N :: uintUnits d
  | Decimal.D7 d => 55%N :: uintUnits d
  | Decimal.D8 d => 56%N :: uintUnits d
  | Decimal.D9 d => 57%N :: uintUnits d
  end.

(** [String(n)] for a non-negative integer. *)
Definition natToString (n : nat) : jsstring := uintUnits (Nat.to_uint n).

(** [String(z)] for an integer (the model has no fractional numbers, no NaN
    and no exponent notation). *)
Definition intToString (z : Z) : jsstring :=
  match Z.to_int z with
  | Decimal.Pos d => uintUnits d
  | Decimal.Neg d => 45%N :: uintUnits d
  end.

End JsString.
Import JsString.

(* ================================================================= *)
(** * usePageContext.ts: helpers *)

(** The marker the specification names, and the suffix the source appends:
    the literal ['\n... [truncated]']. *)
Definition truncatedMarker : jsstring := lit "... [truncated]".
Definition truncatedSuffix : jsstring := nl :: truncatedMarker.

(** [function truncate(text: string, maxLen: number = 3000)]
<<
  if (text.length <= maxLen) return text;
  return text.slice(0, maxLen) + '\n... [truncated]';
>>
    Every call site passes a non-negative integer limit (or the default). *)
Definition truncate (text : jsstring) (maxLen : nat) : jsstring :=
  if Nat.leb (length text) maxLen then text
  else slice text 0 maxLen ++ truncatedSuffix.

Definition defaultMaxLen : nat := 3000.

(** ** [stripHtml] *)

(** The regular expression [/<[^>]*>/] tried at the head of [s]: the length
    of the match, if there is one.  [[^>]*] is greedy, and giving back code
    units cannot help, since none of them is [>]: the match is the [<], the
    longest run without [>], and the [>] that must follow it. *)
Definition notGt (c : codeunit) : bool := negb (N.eqb c gt_sign).  (* [^>] *)

Definition matchTagAt (s : jsstring) : option nat :=
  match s with
  | c :: s1 =>
      if N.eqb c lt_sign then
        let body := takeWhile notGt s1 in
        match skipn (length body) s1 with
        | d :: _ => if N.eqb d gt_sign then Some (length body + 2) else None
        | [] => None
        end
      else None
  | [] => None
  end.

(** [s.replace(re, '')] for a global regular expression [re] whose matches
    are not empty: the scan goes left to right, takes the first match at the
    leftmost position, drops it and resumes behind it.  [inside] counts the
    code units of the current match that are still to be dropped. *)
Fixpoint removeMatches (matchAt : jsstring -> option nat) (s : jsstring)
    (inside : nat) : jsstring :=
  match s with
  | [] => []
  | c :: s' =>
      match inside with
      | S k => removeMatches matchAt s' k
      | O =>
          match matchAt s with
          | Some (S k) => removeMatches matchAt s' k
          | _ => c :: removeMatches matchAt s' 0
          end
      end
  end.

(** [function stripHtml(html: string)]
<<
  return html.replace(/<[^>]*>/g, '').trim();
>> *)
Definition stripHtml (html : jsstring) : jsstring :=
  trim (removeMatches matchTagAt html 0).

(** ** [getEditorCode] *)

(** [EditorTabState]: only the [value] field is read. *)
Record EditorTabState := { value : jsstring }.

(** [editorTabs[activeTab]] for a number that is an integer. *)
Definition tabAt (editorTabs : list EditorTabState) (activeTab : Z)
    : option EditorTabState :=
  if Z.ltb activeTab 0 then None else nth_error editorTabs (Z.to_nat activeTab).

Fixpoint tabHeaders (editorTabs : list EditorTabState) (i : nat) : list jsstring :=
  match editorTabs with
  | [] => []
  | tab :: rest =>
      (lit "// Tab " ++ natToString (i + 1) ++ nl :: value tab)
        :: tabHeaders rest (S i)
  end.

(** [function getEditorCode(editorTabs, activeTab: number | null): string | undefined]
<<
  if (editorTabs.length === 0) return undefined;
  if (activeTab !== null && editorTabs[activeTab]) {
    return editorTabs[activeTab].value;
  }
  const allCode = editorTabs.map((tab, i) => `// Tab ${i + 1}\n${tab.value}`).join('\n\n');
  return allCode || undefined;
>>
    [None] is [undefined]. *)
Definition getEditorCode (editorTabs : list EditorTabState) (activeTab : option Z)
    : option jsstring :=
  if Nat.eqb (length editorTabs) 0 then None
  else
    match match activeTab with Some i => tabAt editorTabs i | None => None end with
    | Some tab => Some (value tab)
    | None =>
        let allCode := join [nl; nl] (tabHeaders editorTabs 0) in
        match allCode with [] => None | _ :: _ => Some allCode end
    end.

(* ================================================================= *)
(** * Values typed [any] *)

(** The playground output entries and the records of [session.assessments]
    and [session.gradings] are typed [any].  They are plain data of the
    Redux store: [undefined], [null], booleans, numbers, strings, arrays and
    objects with string keys.  Numbers are integers in this model. *)
#[local] Set Warnings "-register-all".
Inductive JsValue :=
| JUndefined
| JNull
| JBool (b : bool)
| JNum (n : Z)
| JStr (s : jsstring)
| JArr (items : list JsValue)
| JObj (fields : list (jsstring * JsValue)).

(** The only failure of the code is a [TypeError]: reading a property of
    [undefined] or [null], calling a method a value does not have, or
    converting to a string an object that has no usable [toString]. *)
Inductive Result (A : Type) :=
| Ok (a : A)
| TypeError.
Arguments Ok {A} a.
Arguments TypeError {A}.

Definition bind {A B} (r : Result A) (k : A -> Result B) : Result B :=
  match r with
  | Ok a => k a
  | TypeError => TypeError
  end.

Notation "x <- r ;; k" := (bind r (fun x => k))
  (at level 61, r at next level, right associativity).

Definition mapM {A B} (f : A -> Result B) : list A -> Result (list B) :=
  fix go (l : list A) : Result (list B) :=
    match l with
    | [] => Ok []
    | a :: l' => b <- f a ;; bs <- go l' ;; Ok (b :: bs)
    end.

Module Js.

(** ToBoolean *)
Definition truthy (v : JsValue) : bool :=
  match v with
  | JUndefined | JNull => false
  | JBool b => b
  | JNum n => negb (Z.eqb n 0)
  | JStr s => match s with [] => false | _ => true end
  | JArr _ | JObj _ => true
  end.

(** [v == null] *)
Definition nullish (v : JsValue) : bool :=
  match v with
  | JUndefined | JNull => true
  | _ => false
  end.

(** [v === 'literal'] *)
Definition strictEqStr (v : JsValue) (s : jsstring) : bool :=
  match v with
  | JStr t => streq t s
  | _ => false
  end.

Fixpoint lookupField (name : jsstring) (fields : list (jsstring * JsValue))
    : JsValue :=
  match fields with
  | [] => JUndefined
  | (k, v) :: rest => if streq k name then v else lookupField name rest
  end.

(** [v.name] on a value that is neither [undefined] nor [null], for the
    property names the code reads ([type], [value], [errors], [answers],
    [question], [content], [answer], [grade], [comments], [student], [name],
    [username], [title], [longSummary], [questions]): none of them is a
    property of a boolean, a number, a string or an array, so there the
    read gives [undefined]. *)
Definition propOf (v : JsValue) (name : jsstring) : JsValue :=
  match v with
  | JObj fields => lookupField name fields
  | _ => JUndefined
  end.

(** [v.name]: a [TypeError] on [undefined] and [null]. *)
Definition getProp (v : JsValue) (name : jsstring) : Result JsValue :=
  if nullish v then TypeError else Ok (propOf v name).

(** [v?.name] *)
Definition getPropOpt (v : JsValue) (name : jsstring) : Result JsValue :=
  if nullish v then Ok JUndefined else getProp v name.

(** [v[i]] for an integer [i], on a value that is neither [undefined] nor
    [null]: an element of an array, a code unit of a string, the field of an
    object whose key is the decimal form of [i]. *)
Definition elementOf (v : JsValue) (i : Z) : JsValue :=
  match v with
  | JArr items =>
      if Z.ltb i 0 then JUndefined else nth (Z.to_nat i) items JUndefined
  | JStr s =>
      if Z.ltb i 0 then JUndefined
      else match nth_error s (Z.to_nat i) with
           | Some c => JStr [c]
           | None => JUndefined
           end
  | JObj fields => lookupField (intToString i) fields
  | _ => JUndefined
  end.

(** [v[i]]: a [TypeError] on [undefined] and [null]. *)
Definition getIndex (v : JsValue) (i : Z) : Result JsValue :=
  if nullish v then TypeError else Ok (elementOf v i).

(** [v?.[i]] *)
Definition getIndexOpt (v : JsValue) (i : Z) : Result JsValue :=
  if nullish v then Ok JUndefined else getIndex v i.

(** [name in fields]: the object has an own property [name]. *)
Definition hasOwn (name : jsstring) (fields : list (jsstring * JsValue))
    : bool :=
  existsb (fun kx => streq (fst kx) name) fields.

(** [String(v)], which is also what a template literal and [Array.join]
    apply.  An array is its elements joined by [","], with [undefined] and
    [null] elements left empty.  An object is an ordinary object (its
    prototype is [Object.prototype]) with own data properties: without an
    own [toString] it is ["[object Object]"];
    with one (plain data, so not callable) the conversion falls to
    [valueOf], which gives no primitive, and raises a [TypeError]. *)
Fixpoint toString (v : JsValue) : Result jsstring :=
  match v with
  | JUndefined => Ok (lit "undefined")
  | JNull => Ok (lit "null")
  | JBool true => Ok (lit "true")
  | JBool false => Ok (lit "false")
  | JNum n => Ok (intToString n)
  | JStr s => Ok s
  | JArr items =>
      texts <- mapM (fun x => if nullish x then Ok [] else toString x) items ;;
      Ok (join (lit ",") texts)
  | JObj fields =>
      if hasOwn (lit "toString") fields then TypeError
      else Ok (lit "[object Object]")
  end.

(** The text of an element in [Array.join]. *)
Definition elementText (x : JsValue) : Result jsstring :=
  if nullish x then Ok [] else toString x.

(** [items.join(sep)] on an array of arbitrary values. *)
Definition joinValues (sep : jsstring) (items : list JsValue)
    : Result jsstring :=
  texts <- mapM elementText items ;; Ok (join sep texts).

(** [record[id]] on a [Record<number, any>]. *)
Fixpoint recordGet (record : list (Z * JsValue)) (id : Z) : JsValue :=
  match record with
  | [] => JUndefined
  | (k, v) :: rest => if Z.eqb k id then v else recordGet rest id
  end.

(** [html.replace(...)] exists on strings only. *)
Definition callStripHtml (v : JsValue) : Result jsstring :=
  match v with
  | JStr html => Ok (stripHtml html)
  | _ => TypeError
  end.

End Js.

(* ================================================================= *)
(** * usePageContext.ts: [buildPageContext] *)

Record StoreSlices := {
  playgroundEditorTabs : list EditorTabState;
  playgroundActiveTab : option Z;            (* number | null *)
  playgroundOutput : list JsValue;           (* readonly any[] *)
  playgroundReplValue : jsstring;
  assessmentEditorTabs : list EditorTabState;
  assessmentActiveTab : option Z;
  currentAssessmentId : option Z;            (* number | undefined *)
  currentAssessmentQuestion : option Z;
  gradingEditorTabs : list EditorTabState;
  gradingActiveTab : option Z;
  currentSubmissionId : option Z;
  currentGradingQuestion : option Z;
  assessments : list (Z * JsValue);          (* Record<number, any> *)
  gradings : list (Z * JsValue)
}.

Record PageContext := { pageType : jsstring; pageContext : jsstring }.

(** [.]: any code unit but a line terminator. *)
Definition notLineTerminator (c : codeunit) : bool :=
  negb (isLineTerminator c).

(** [pathname.match(re)] for the regular expression that reads, from the
    start of the string, [\/courses\/], the group [(\d+)], [\/] and the group
    of [.] repeated with a star: the two captured groups.  [\d+] is greedy
    and a shorter run of digits is followed by a digit, never by the [/];
    the second group runs up to the first line terminator, and nothing has
    to follow it. *)
Definition courseMatch (pathname : jsstring) : option (jsstring * jsstring) :=
  if startsWith (lit "/courses/") pathname then
    let s1 := skipn 9 pathname in
    let digits := takeWhile isDigit s1 in
    match digits with
    | [] => None                       (* [\d+] needs a digit *)
    | _ :: _ =>
        match skipn (length digits) s1 with
        | c :: s2 =>
            if N.eqb c slash
            then Some (digits, takeWhile notLineTerminator s2)
            else None
        | [] => None
        end
    end
  else None.

(** [`Route: ${pathname}`] *)
Definition routeLine (pathname : jsstring) : jsstring :=
  lit "Route: " ++ pathname.

Definition codeFenceOpen : jsstring := lit "```javascript" ++ [nl].
Definition codeFenceClose : jsstring := nl :: lit "```".

(** [if (code) parts.push(...)] for the three editor sections: a blank
    line, the header, and the code (truncated to the default limit) inside
    a [javascript] fence. *)
Definition pushEditorCode (header : jsstring) (code : option jsstring)
    (parts : list jsstring) : list jsstring :=
  match code with
  | Some (c :: rest) =>
      parts ++ [nl :: header ++ nl :: codeFenceOpen
                  ++ truncate (c :: rest) defaultMaxLen ++ codeFenceClose]
  | _ => parts
  end.

Definition playgroundDescription : jsstring :=
  lit "The user is currently on the Source Academy Playground " ++ emdash
  :: lit " an interactive code editor for the Source language (a subset of JavaScript).".

Definition playgroundCodeHeader : jsstring :=
  lit "The user's current code in the editor:".

(** [o.type === 'result' ? String(o.value) : o.type === 'errors' ? o.errors : String(o)] *)
Definition outputText (o : JsValue) : Result JsValue :=
  ty <- Js.getProp o (lit "type") ;;
  if Js.strictEqStr ty (lit "result") then
    v <- Js.getProp o (lit "value") ;;
    text <- Js.toString v ;; Ok (JStr text)
  else if Js.strictEqStr ty (lit "errors") then
    Js.getProp o (lit "errors")
  else text <- Js.toString o ;; Ok (JStr text).

(** [output.slice(-10)] *)
Definition lastTen {A} (l : list A) : list A := skipn (length l - 10) l.

(** The playground branch after the editor code: REPL value and output. *)
Definition pushReplValue (store : StoreSlices) (parts : list jsstring)
    : list jsstring :=
  match playgroundReplValue store with
  | [] => parts
  | _ :: _ =>
      parts ++ [nl :: lit "The user's current REPL input: "
                  ++ playgroundReplValue store]
  end.

Definition pushOutput (store : StoreSlices) (parts : list jsstring)
    : Result (list jsstring) :=
  if Nat.ltb 0 (length (playgroundOutput store)) then
    texts <- mapM outputText (lastTen (playgroundOutput store)) ;;
    outputTexts <- Js.joinValues [nl] texts ;;
    Ok (parts ++ [nl :: lit "Recent program output:" ++ nl
                    :: truncate outputTexts 1000])
  else Ok parts.

Definition gradingDescription : jsstring :=
  lit "The user is on the Grading page " ++ emdash
  :: lit " a staff view for reviewing student submissions.".

Definition gradingCodeHeader : jsstring :=
  lit "Code currently visible in the grading editor:".

(** The four pushes made for the answer [gq] under review. *)
Definition pushGradingQuestion (gq : JsValue) (parts : list jsstring)
    : Result (list jsstring) :=
  question <- Js.getProp gq (lit "question") ;;
  content <- Js.getPropOpt question (lit "content") ;;
  parts1 <-
    (if Js.truthy content then
       stripped <- Js.callStripHtml content ;;
       Ok (parts ++ [nl :: lit "Question being graded:" ++ nl
                       :: truncate stripped 1500])
     else Ok parts) ;;
  answer <- Js.getPropOpt question (lit "answer") ;;
  parts2 <-
    (if negb (Js.nullish answer) then
       answerText <- Js.toString answer ;;
       Ok (parts1 ++ [nl :: lit "Student's submitted answer:" ++ nl
                        :: codeFenceOpen
                        ++ truncate answerText defaultMaxLen
                        ++ codeFenceClose])
     else Ok parts1) ;;
  grade <- Js.getProp gq (lit "grade") ;;
  comments <- Js.getPropOpt grade (lit "comments") ;;
  parts3 <-
    (if Js.truthy comments then
       commentsText <- Js.toString comments ;;
       Ok (parts2 ++ [nl :: lit "Grader comments so far: " ++ commentsText])
     else Ok parts2) ;;
  student <- Js.getProp gq (lit "student") ;;
  if Js.truthy student then
    name <- Js.getProp student (lit "name") ;;
    nameText <- Js.toString name ;;
    username <- Js.getProp student (lit "username") ;;
    usernameText <- Js.toString username ;;
    Ok (parts3 ++ [nl :: lit "Student: " ++ nameText ++ lit " ("
                     ++ usernameText ++ lit ")"])
  else Ok parts3.

(** The block guarded by
    [store.currentSubmissionId != null && store.gradings[store.currentSubmissionId]]. *)
Definition pushGradingDetails (store : StoreSlices) (parts : list jsstring)
    : Result (list jsstring) :=
  match currentSubmissionId store with
  | None => Ok parts
  | Some submissionId =>
      let grading := Js.recordGet (gradings store) submissionId in
      if Js.truthy grading then
        answers <- Js.getPropOpt grading (lit "answers") ;;
        match Js.truthy answers, currentGradingQuestion store with
        | true, Some questionId =>
            gq <- Js.getIndex answers questionId ;;
            if Js.truthy gq then pushGradingQuestion gq parts else Ok parts
        | _, _ => Ok parts
        end
      else Ok parts
  end.

Definition assessmentDescription : jsstring :=
  lit "The user is on an assessment page (mission, quest, path, or other assignment type).".

Definition assessmentCodeHeader : jsstring :=
  lit "Code currently in the assessment editor:".

(** The two pushes made for the current question of the assessment. *)
Definition pushAssessmentQuestion (questionId : Z) (question : JsValue)
    (parts : list jsstring) : Result (list jsstring) :=
  content <- Js.getProp question (lit "content") ;;
  parts1 <-
    (if Js.truthy content then
       stripped <- Js.callStripHtml content ;;
       Ok (parts ++ [nl :: lit "Current question (Q"
                       ++ intToString (questionId + 1) ++ lit "):" ++ nl
                       :: truncate stripped 1500])
     else Ok parts) ;;
  ty <- Js.getProp question (lit "type") ;;
  if Js.strictEqStr ty (lit "programming") then
    answer <- Js.getProp question (lit "answer") ;;
    if negb (Js.nullish answer) then
      answerText <- Js.toString answer ;;
      Ok (parts1 ++ [nl :: lit "Student's current answer code:" ++ nl
                       :: codeFenceOpen
                       ++ truncate answerText defaultMaxLen
                       ++ codeFenceClose])
    else Ok parts1
  else Ok parts1.

(** The block guarded by
    [store.currentAssessmentId != null && store.assessments[store.currentAssessmentId]]. *)
Definition pushAssessmentDetails (store : StoreSlices) (parts : list jsstring)
    : Result (list jsstring) :=
  match currentAssessmentId store with
  | None => Ok parts
  | Some assessmentId =>
      let assessment := Js.recordGet (assessments store) assessmentId in
      if Js.truthy assessment then
        title <- Js.getProp assessment (lit "title") ;;
        parts1 <-
          (if Js.truthy title then
             titleText <- Js.toString title ;;
             Ok (parts ++ [nl :: lit "Assessment title: " ++ titleText])
           else Ok parts) ;;
        longSummary <- Js.getProp assessment (lit "longSummary") ;;
        parts2 <-
          (if Js.truthy longSummary then
             stripped <- Js.callStripHtml longSummary ;;
             Ok (parts1 ++ [nl :: lit "Assessment summary: "
                              ++ truncate stripped 800])
           else Ok parts1) ;;
        match currentAssessmentQuestion store with
        | None => Ok parts2
        | Some questionId =>
            questions <- Js.getProp assessment (lit "questions") ;;
            question <- Js.getIndexOpt questions questionId ;;
            if Js.truthy question
            then pushAssessmentQuestion questionId question parts2
            else Ok parts2
        end
      else Ok parts
  end.

(** A fixed one-line page: [`<description>\nRoute: ${pathname}`]. *)
Definition fixedPage (ty : string) (before after : string) (pathname : jsstring)
    : Result PageContext :=
  Ok {| pageType := lit ty;
        pageContext := lit before ++ emdash :: lit after ++ nl :: routeLine pathname |}.

(** [function buildPageContext(pathname: string, store: StoreSlices)] *)
Definition buildPageContext (pathname : jsstring) (store : StoreSlices)
    : Result PageContext :=
  if startsWith (lit "/playground") pathname then
    let code := getEditorCode (playgroundEditorTabs store) (playgroundActiveTab store) in
    let parts := [playgroundDescription; routeLine pathname] in
    let parts := pushEditorCode playgroundCodeHeader code parts in
    let parts := pushReplValue store parts in
    parts <- pushOutput store parts ;;
    Ok {| pageType := lit "playground"; pageContext := join [nl] parts |}
  else
  match courseMatch pathname with
  | Some (_, subPath) =>
      if startsWith (lit "grading") subPath then
        let parts := [gradingDescription; routeLine pathname] in
        parts <- pushGradingDetails store parts ;;
        let gradingCode :=
          getEditorCode (gradingEditorTabs store) (gradingActiveTab store) in
        let parts := pushEditorCode gradingCodeHeader gradingCode parts in
        Ok {| pageType := lit "grading"; pageContext := join [nl] parts |}
      else if startsWith (lit "groundcontrol") subPath then
        fixedPage "groundcontrol" "The user is on Ground Control "
          " a staff management page for assessments." pathname
      else if startsWith (lit "adminpanel") subPath then
        fixedPage "adminpanel" "The user is on the Admin Panel "
          " course administration settings." pathname
      else if startsWith (lit "achievements") subPath then
        fixedPage "achievements" "The user is on the Achievements page "
          " gamification and goals tracking." pathname
      else if startsWith (lit "sourcecast") subPath then
        fixedPage "sourcecast" "The user is on the Sourcecast page "
          " recorded coding sessions." pathname
      else if startsWith (lit "game") subPath then
        fixedPage "game" "The user is on the Game page "
          " the Source Academy story game." pathname
      else if startsWith (lit "stories") subPath then
        fixedPage "stories" "The user is on the Stories page "
          " story management for the game." pathname
      else
        let parts := [assessmentDescription; routeLine pathname] in
        parts <- pushAssessmentDetails store parts ;;
        let assessmentCode :=
          getEditorCode (assessmentEditorTabs store) (assessmentActiveTab store) in
        let parts := pushEditorCode assessmentCodeHeader assessmentCode parts in
        Ok {| pageType := lit "assessment"; pageContext := join [nl] parts |}
  | None =>
      if startsWith (lit "/mission-control") pathname then
        fixedPage "mission-control" "The user is on Mission Control "
          " assessment management interface." pathname
      else if startsWith (lit "/contributors") pathname then
        fixedPage "contributors" "The user is on the Contributors page "
          " listing Source Academy contributors." pathname
      else if startsWith (lit "/welcome") pathname then
        fixedPage "welcome" "The user is on the Welcome page "
          " initial setup after login." pathname
      else
        Ok {| pageType := lit "general";
              pageContext := lit "The user is browsing Source Academy." ++ nl
                               :: routeLine pathname |}
  end.


(* ================================================================= *)
(** * PixelChatBox.tsx: [MessageRenderer] *)

Inductive Role := user | assistant.

Record PixelChatMessage := { id : jsstring; role : Role; content : jsstring }.

(** The fence: three backticks. *)
Definition fence : jsstring := [backtick; backtick; backtick].

(** A successful [codeBlockRegex.exec(content)]: [match.index], the groups
    [match[1]] ([None] when the group did not take part) and [match[2]],
    and the [lastIndex] the regular expression is left with. *)
Record RegExpMatch := {
  index : nat;
  group1 : option jsstring;
  group2 : jsstring;
  lastIndexAfter : nat
}.

(** The regular expression [/```(\w+)?\n([\s\S]*?)```/] tried at the head of
    [s]: the two groups and the length of the match.  [(\w+)?] is greedy: it
    takes the longest run of word characters, and a shorter run (or none) is
    followed by a word character, never by the newline.  [[\s\S]*?] is lazy:
    the body ends at the nearest fence behind the newline. *)
Definition matchCodeBlockAt (s : jsstring)
    : option (option jsstring * jsstring * nat) :=
  if startsWith fence s then
    let s1 := skipn 3 s in
    let tag := takeWhile isWordChar s1 in
    match skipn (length tag) s1 with
    | c :: s2 =>
        if N.eqb c nl then
          match indexOf fence s2 with
          | Some k =>
              Some (match tag with [] => None | _ :: _ => Some tag end,
                    firstn k s2,
                    3 + length tag + 1 + k + 3)
          | None => None
          end
        else None
    | [] => None
    end
  else None.

(** The search of [exec]: the leftmost position, from [pos] on, at which the
    regular expression matches; [s] is the content from [pos]. *)
Fixpoint searchCodeBlock (s : jsstring) (pos : nat) : option RegExpMatch :=
  match matchCodeBlockAt s with
  | Some (g1, g2, len) =>
      Some {| index := pos; group1 := g1; group2 := g2;
              lastIndexAfter := pos + len |}
  | None =>
      match s with
      | [] => None
      | _ :: s' => searchCodeBlock s' (S pos)
      end
  end.

(** [codeBlockRegex.exec(content)] with the regular expression's [lastIndex]
    at [lastIndex] (the [g] flag). *)
Definition codeBlockExec (content : jsstring) (lastIndex : nat)
    : option RegExpMatch :=
  searchCodeBlock (skipn lastIndex content) lastIndex.

(** The React nodes pushed to [parts]. *)
Inductive Part :=
| TextDiv (key : jsstring) (lines : list jsstring)
    (* <div key=...> with a fragment [line <br/>] per line *)
| CodeSnippet (key : jsstring) (code language : jsstring)
    (* <ChatbotCodeSnippet id=... code=... language=... /> *)
| StaticCodeBlock (key : jsstring) (code language : jsstring).
    (* the same snippet inside <div className="chatbot-code-block-static"> *)

Definition textPart (key text : jsstring) : Part :=
  TextDiv key (split nl text).

Definition codePart (messageId : jsstring) (codeBlockIndex : nat)
    (m : RegExpMatch) : Part :=
  let lang := match group1 m with
              | Some (c :: tag) => c :: tag
              | _ => lit "javascript"
              end in
  let code := group2 m in
  let snippetId := messageId ++ lit "-code-" ++ natToString codeBlockIndex in
  if (streq lang (lit "javascript") || streq lang (lit "js"))%bool
  then CodeSnippet snippetId code lang
  else StaticCodeBlock snippetId code lang.

(** The [while ((match = codeBlockRegex.exec(content)) !== null)] loop, one
    iteration per unit of [fuel]; [None] when the fuel runs out. *)
Fixpoint renderLoop (fuel : nat) (messageId content : jsstring)
    (lastIndex codeBlockIndex : nat) (parts : list Part)
    : option (nat * list Part) :=
  match fuel with
  | O => None
  | S fuel' =>
      match codeBlockExec content lastIndex with
      | None => Some (lastIndex, parts)
      | Some m =>
          let parts :=
            if Nat.ltb lastIndex (index m) then
              parts ++ [textPart
                          (messageId ++ lit "-text-" ++ natToString lastIndex)
                          (slice content lastIndex (index m))]
            else parts in
          let parts := parts ++ [codePart messageId codeBlockIndex m] in
          renderLoop fuel' messageId content (lastIndexAfter m)
            (S codeBlockIndex) parts
      end
  end.

(** The body of [MessageRenderer]: the array [parts] it returns in a
    fragment.  Every iteration of the loop moves [lastIndex] forward, so
    [length content + 1] iterations are enough (see [MessageRenderer_total]). *)
Definition MessageRenderer (message : PixelChatMessage) : option (list Part) :=
  let content := content message in
  let messageId := id message in
  match renderLoop (S (length content)) messageId content 0 0 [] with
  | None => None
  | Some (lastIndex, parts) =>
      Some (if Nat.ltb lastIndex (length content) then
              parts ++ [textPart (messageId ++ lit "-text-end")
                          (skipn lastIndex content)]
            else parts)
  end.

(** The specification's view of a part: a [DisplaySegment]. *)
Inductive DisplaySegment :=
| TextSegment (lines : list jsstring)
| CodeSegment (language source : jsstring).

Definition toSegment (p : Part) : DisplaySegment :=
  match p with
  | TextDiv _ lines => TextSegment lines
  | CodeSnippet _ code language => CodeSegment language code
  | StaticCodeBlock _ code language => CodeSegment language code
  end.

(** [renderMessage(content)] of the specification. *)
Definition renderMessage (message : PixelChatMessage)
    : option (list DisplaySegment) :=
  option_map (map toSegment) (MessageRenderer message).


(* ================================================================= *)
(** * The specification's reading of the operations *)

(** What the specification says of markup stripping: every span from a [<]
    to the next [>] is deleted, and the code units outside such spans are
    unchanged.  A [<] with no [>] behind it opens no span. *)
Inductive SpansDeleted : jsstring -> jsstring -> Prop :=
| sd_nil : SpansDeleted [] []
| sd_keep c s t :
    c <> lt_sign -> SpansDeleted s t -> SpansDeleted (c :: s) (c :: t)
| sd_unclosed s t :
    ~ In gt_sign s -> SpansDeleted s t ->
    SpansDeleted (lt_sign :: s) (lt_sign :: t)
| sd_span body rest t :
    ~ In gt_sign body -> SpansDeleted rest t ->
    SpansDeleted (lt_sign :: body ++ gt_sign :: rest) t.

(** What the specification says of the segments: concatenated back, text
    lines joined by newline and code wrapped in the fence with its language
    tag, they give the content; a code segment whose language is the default
    may stand for a fence without annotation. *)
Inductive RoundTrip : list DisplaySegment -> jsstring -> Prop :=
| rt_nil : RoundTrip [] []
| rt_text lines segs s :
    RoundTrip segs s ->
    RoundTrip (TextSegment lines :: segs) (join [nl] lines ++ s)
| rt_code language source segs s :
    RoundTrip segs s ->
    RoundTrip (CodeSegment language source :: segs)
      (fence ++ language ++ nl :: source ++ fence ++ s)
| rt_code_default source segs s :
    RoundTrip segs s ->
    RoundTrip (CodeSegment (lit "javascript") source :: segs)
      (fence ++ nl :: source ++ fence ++ s).

(* ================================================================= *)
(** * Routes, shapes of the state, and examples *)

(** A route under a course: [/courses/<digits>/<rest>]. *)
Definition coursePath (digits rest : jsstring) : jsstring :=
  lit "/courses/" ++ digits ++ slash :: rest.

Definition isCoursePath (pathname : jsstring) : Prop :=
  exists digits rest,
    digits <> [] /\ forallb isDigit digits = true /\
    pathname = coursePath digits rest.

(** The page types of the routes under a course. *)
Definition coursePageTypes : list jsstring :=
  map lit ["grading"; "groundcontrol"; "adminpanel"; "achievements";
           "sourcecast"; "game"; "stories"; "assessment"]%string.

(** The sub-paths of a course that have a page of their own. *)
Definition courseSubPages : list jsstring :=
  map lit ["grading"; "groundcontrol"; "adminpanel"; "achievements";
           "sourcecast"; "game"; "stories"]%string.

(** The prefixes matched on the whole route. *)
Definition topLevelPrefixes : list jsstring :=
  map lit ["/playground"; "/mission-control"; "/contributors"; "/welcome"]%string.

Definition startsWithNone (prefixes : list jsstring) (s : jsstring) : bool :=
  forallb (fun p => negb (startsWith p s)) prefixes.

(** ** What a route reads of the values typed [any] *)

Definition isOk {A} (r : Result A) : bool :=
  match r with
  | Ok _ => true
  | TypeError => false
  end.

(** [v] can be converted to a string: it is not an object with a
    [toString] of its own, and neither is any element it has as an array,
    however deep.  [isOk_toString] shows that these are the values on which
    [String(v)] returns. *)
Fixpoint printable (v : JsValue) : bool :=
  match v with
  | JArr items => forallb printable items
  | JObj fields => negb (Js.hasOwn (lit "toString") fields)
  | _ => true
  end.

(** [v] is a string: it has the [replace] that [stripHtml] calls. *)
Definition isString (v : JsValue) : bool :=
  match v with
  | JStr _ => true
  | _ => false
  end.

(** The value of [v?.name]. *)
Definition propOfOpt (v : JsValue) (name : jsstring) : JsValue :=
  if Js.nullish v then JUndefined else Js.propOf v name.

(** An output entry can be read: it is an object (not [undefined], not
    [null]), and what is printed for it can be converted to a string: its
    [value] for a result, its [errors] (where set) for errors, and the entry
    itself for every other type. *)
Definition outputEntryReadable (o : JsValue) : bool :=
  (negb (Js.nullish o)
   && (if Js.strictEqStr (Js.propOf o (lit "type")) (lit "result")
       then printable (Js.propOf o (lit "value"))
       else if Js.strictEqStr (Js.propOf o (lit "type")) (lit "errors")
       then Js.nullish (Js.propOf o (lit "errors"))
            || printable (Js.propOf o (lit "errors"))
       else printable o))%bool.

Definition playgroundReadable (store : StoreSlices) : bool :=
  forallb outputEntryReadable (lastTen (playgroundOutput store)).

(** The answer under review: the entry of the selected submission's
    [answers] at the selected question, where all of that resolves. *)
Definition gradingQuestionOf (store : StoreSlices) : option JsValue :=
  match currentSubmissionId store, currentGradingQuestion store with
  | Some submissionId, Some questionId =>
      let grading := Js.recordGet (gradings store) submissionId in
      if Js.truthy grading then
        let answers := Js.propOf grading (lit "answers") in
        if Js.truthy answers then
          let gq := Js.elementOf answers questionId in
          if Js.truthy gq then Some gq else None
        else None
      else None
  | _, _ => None
  end.

(** The answer under review can be read: the content of its question is a
    string where it is set, and its answer, the grader's comments and the
    student's name and username, where they are set, can be converted to a
    string. *)
Definition gradingQuestionReadable (gq : JsValue) : bool :=
  let question := Js.propOf gq (lit "question") in
  let content := propOfOpt question (lit "content") in
  let answer := propOfOpt question (lit "answer") in
  let comments := propOfOpt (Js.propOf gq (lit "grade")) (lit "comments") in
  let student := Js.propOf gq (lit "student") in
  ((negb (Js.truthy content) || isString content)
   && (Js.nullish answer || printable answer)
   && (negb (Js.truthy comments) || printable comments)
   && (negb (Js.truthy student)
       || (printable (Js.propOf student (lit "name"))
           && printable (Js.propOf student (lit "username")))))%bool.

Definition gradingReadable (store : StoreSlices) : bool :=
  match gradingQuestionOf store with
  | Some gq => gradingQuestionReadable gq
  | None => true
  end.

(** The selected assessment, and its selected question, where they
    resolve. *)
Definition assessmentOf (store : StoreSlices) : option JsValue :=
  match currentAssessmentId store with
  | Some assessmentId =>
      let assessment := Js.recordGet (assessments store) assessmentId in
      if Js.truthy assessment then Some assessment else None
  | None => None
  end.

Definition assessmentQuestionOf (store : StoreSlices) (assessment : JsValue)
    : option JsValue :=
  match currentAssessmentQuestion store with
  | Some questionId =>
      let questions := Js.propOf assessment (lit "questions") in
      let question :=
        if Js.nullish questions then JUndefined
        else Js.elementOf questions questionId in
      if Js.truthy question then Some question else None
  | None => None
  end.

Definition assessmentQuestionReadable (question : JsValue) : bool :=
  let content := Js.propOf question (lit "content") in
  let answer := Js.propOf question (lit "answer") in
  ((negb (Js.truthy content) || isString content)
   && (negb (Js.strictEqStr (Js.propOf question (lit "type"))
               (lit "programming"))
       || Js.nullish answer || printable answer))%bool.

(** The selected assessment can be read: its title can be converted to a
    string and its long summary is a string, where they are set, and so for
    the content and the answer of its selected question. *)
Definition assessmentReadable (store : StoreSlices) : bool :=
  match assessmentOf store with
  | Some assessment =>
      let title := Js.propOf assessment (lit "title") in
      let longSummary := Js.propOf assessment (lit "longSummary") in
      ((negb (Js.truthy title) || printable title)
       && (negb (Js.truthy longSummary) || isString longSummary)
       && match assessmentQuestionOf store assessment with
          | Some question => assessmentQuestionReadable question
          | None => true
          end)%bool
  | None => true
  end.

(** The active tab exists and its content is the empty string. *)
Definition activeTabEmpty (editorTabs : list EditorTabState)
    (activeTab : option Z) : bool :=
  match activeTab with
  | Some i =>
      match tabAt editorTabs i with
      | Some tab => streq (value tab) []
      | None => false
      end
  | None => false
  end.

Definition emptyStore : StoreSlices :=
  {| playgroundEditorTabs := []; playgroundActiveTab := None;
     playgroundOutput := []; playgroundReplValue := [];
     assessmentEditorTabs := []; assessmentActiveTab := None;
     currentAssessmentId := None; currentAssessmentQuestion := None;
     gradingEditorTabs := []; gradingActiveTab := None;
     currentSubmissionId := None; currentGradingQuestion := None;
     assessments := []; gradings := [] |}.

(** A playground whose only output entry is [null]. *)
Definition storeWithNullOutput : StoreSlices :=
  {| playgroundEditorTabs := []; playgroundActiveTab := None;
     playgroundOutput := [JNull]; playgroundReplValue := [];
     assessmentEditorTabs := []; assessmentActiveTab := None;
     currentAssessmentId := None; currentAssessmentQuestion := None;
     gradingEditorTabs := []; gradingActiveTab := None;
     currentSubmissionId := None; currentGradingQuestion := None;
     assessments := []; gradings := [] |}.

(** A playground whose only output entry has a [toString] of its own that
    is not a function. *)
Definition storeWithUnprintableOutput : StoreSlices :=
  {| playgroundEditorTabs := []; playgroundActiveTab := None;
     playgroundOutput :=
       [ JObj [(lit "type", JStr (lit "code")); (lit "toString", JNull)] ];
     playgroundReplValue := [];
     assessmentEditorTabs := []; assessmentActiveTab := None;
     currentAssessmentId := None; currentAssessmentQuestion := None;
     gradingEditorTabs := []; gradingActiveTab := None;
     currentSubmissionId := None; currentGradingQuestion := None;
     assessments := []; gradings := [] |}.

(** A submission under review whose question content is the number 5, and
    an assessment whose long summary is the number 5. *)
Definition storeWithNumericContent : StoreSlices :=
  {| playgroundEditorTabs := []; playgroundActiveTab := None;
     playgroundOutput := []; playgroundReplValue := [];
     assessmentEditorTabs := []; assessmentActiveTab := None;
     currentAssessmentId := Some 3%Z; currentAssessmentQuestion := None;
     gradingEditorTabs := []; gradingActiveTab := None;
     currentSubmissionId := Some 7%Z; currentGradingQuestion := Some 0%Z;
     assessments := [ (3%Z, JObj [(lit "longSummary", JNum 5)]) ];
     gradings :=
       [ (7%Z,
          JObj [(lit "answers",
                 JArr [ JObj [(lit "question",
                               JObj [(lit "content", JNum 5)])] ])]) ] |}.

(** The same records with nothing selected. *)
Definition storeWithUnselectedRecords : StoreSlices :=
  {| playgroundEditorTabs := []; playgroundActiveTab := None;
     playgroundOutput := []; playgroundReplValue := [];
     assessmentEditorTabs := []; assessmentActiveTab := None;
     currentAssessmentId := None; currentAssessmentQuestion := None;
     gradingEditorTabs := []; gradingActiveTab := None;
     currentSubmissionId := None; currentGradingQuestion := None;
     assessments := assessments storeWithNumericContent;
     gradings := gradings storeWithNumericContent |}.

(** A submission under review whose student has a name that cannot be
    converted to a string. *)
Definition storeWithUnprintableName : StoreSlices :=
  {| playgroundEditorTabs := []; playgroundActiveTab := None;
     playgroundOutput := []; playgroundReplValue := [];
     assessmentEditorTabs := []; assessmentActiveTab := None;
     currentAssessmentId := None; currentAssessmentQuestion := None;
     gradingEditorTabs := []; gradingActiveTab := None;
     currentSubmissionId := Some 7%Z; currentGradingQuestion := Some 0%Z;
     assessments := [];
     gradings :=
       [ (7%Z,
          JObj [(lit "answers",
                 JArr [ JObj [(lit "student",
                               JObj [(lit "name",
                                      JObj [(lit "toString", JNum 1)]);
                                     (lit "username", JStr (lit "e01"))])]
                      ])]) ] |}.

(** No submission selected, and the grading editor shows ["x"]. *)
Definition storeWithGradingCode : StoreSlices :=
  {| playgroundEditorTabs := []; playgroundActiveTab := None;
     playgroundOutput := []; playgroundReplValue := [];
     assessmentEditorTabs := []; assessmentActiveTab := None;
     currentAssessmentId := None; currentAssessmentQuestion := None;
     gradingEditorTabs := [ {| value := lit "x" |} ];
     gradingActiveTab := Some 0%Z;
     currentSubmissionId := None; currentGradingQuestion := None;
     assessments := []; gradings := [] |}.

(** A submission under review: question 0 of submission 7, with a student,
    a grader comment, and an answer in the grading editor. *)
Definition storeWithSubmission : StoreSlices :=
  {| playgroundEditorTabs := [ {| value := lit "1+1;" |} ];
     playgroundActiveTab := Some 0%Z;
     playgroundOutput :=
       [ JObj [(lit "type", JStr (lit "result")); (lit "value", JNum 2)] ];
     playgroundReplValue := [];
     assessmentEditorTabs := []; assessmentActiveTab := None;
     currentAssessmentId := None; currentAssessmentQuestion := None;
     gradingEditorTabs := [ {| value := lit "f(1);" |} ];
     gradingActiveTab := None;
     currentSubmissionId := Some 7%Z; currentGradingQuestion := Some 0%Z;
     assessments := [];
     gradings :=
       [ (7%Z,
          JObj [(lit "answers",
                 JArr [ JObj
                   [(lit "question",
                     JObj [(lit "content", JStr (lit "<p>Write <b>f</b></p> "));
                           (lit "answer", JStr (lit "f(1);"))]);
                    (lit "grade", JObj [(lit "comments", JStr (lit "ok"))]);
                    (lit "student",
                     JObj [(lit "name", JStr (lit "Ann"));
                           (lit "username", JStr (lit "e01"))])] ])]) ] |}.

(** The three editors each show one tab, active and empty. *)
Definition storeWithEmptyTabs : StoreSlices :=
  {| playgroundEditorTabs := [ {| value := [] |} ];
     playgroundActiveTab := Some 0%Z;
     playgroundOutput := []; playgroundReplValue := [];
     assessmentEditorTabs := [ {| value := [] |} ];
     assessmentActiveTab := Some 0%Z;
     currentAssessmentId := None; currentAssessmentQuestion := None;
     gradingEditorTabs := [ {| value := [] |} ];
     gradingActiveTab := Some 0%Z;
     currentSubmissionId := None; currentGradingQuestion := None;
     assessments := []; gradings := [] |}.

Definition mkMessage (c : jsstring) : PixelChatMessage :=
  {| id := lit "m1"; role := assistant; content := c |}.

(** What [match[1]] is for a tag: absent when the tag is empty. *)
Definition tagCapture (tag : jsstring) : option jsstring :=
  match tag with [] => None | _ :: _ => Some tag end.

Definition fencedExample : jsstring :=
  lit "a" ++ nl :: lit "```js" ++ nl :: lit "x=1" ++ nl :: lit "```"
    ++ nl :: lit "b".

Definition unterminatedExample : jsstring :=
  lit "a" ++ nl :: lit "```js" ++ nl :: lit "x=1".

(** Two opening fences, neither closed: ["see ``` and\n```js\nx=1"]. *)
Definition strayFenceExample : jsstring :=
  lit "see ``` and" ++ nl :: lit "```js" ++ nl :: lit "x=1".

(** A closed block and, behind it, a fence that is never closed:
    ["```\nx```\n```js\ny"]. *)
Definition blockThenUnterminated : jsstring :=
  lit "```" ++ nl :: lit "x```" ++ nl :: lit "```js" ++ nl :: lit "y".

(** The content holds a complete code block, as the regular expression
    reads one: a fence, a run of word characters (the tag, possibly empty),
    a newline, any text, and a fence. *)
Definition HasCodeBlock (content : jsstring) : Prop :=
  exists before tag body after,
    forallb isWordChar tag = true /\
    content = before ++ fence ++ tag ++ nl :: body ++ fence ++ after.

Ltac reassoc := repeat (rewrite <- app_assoc || rewrite <- app_comm_cons).

(** The React key of a part. *)
Definition partKey (p : Part) : jsstring :=
  match p with
  | TextDiv key _ => key
  | CodeSnippet key _ _ => key
  | StaticCodeBlock key _ _ => key
  end.

(** The keys pushed so far: text keys carry an offset below [lastIndex],
    code keys a number below [codeBlockIndex]. *)
Definition keyBelow (messageId : jsstring) (lastIndex i : nat) (k : jsstring) : Prop :=
  (exists n, n < lastIndex /\ k = messageId ++ lit "-text-" ++ natToString n) \/
  (exists j, j < i /\ k = messageId ++ lit "-code-" ++ natToString j).

(** Every page type the code can return. *)
Definition allPageTypes : list jsstring :=
  map lit ["playground"; "grading"; "groundcontrol"; "adminpanel";
           "achievements"; "sourcecast"; "game"; "stories"; "assessment";
           "mission-control"; "contributors"; "welcome"; "general"]%string.

(** The same state with another selection, or another output. *)
Definition withSubmission (store : StoreSlices) (submission : option Z)
    : StoreSlices :=
  {| playgroundEditorTabs := playgroundEditorTabs store;
     playgroundActiveTab := playgroundActiveTab store;
     playgroundOutput := playgroundOutput store;
     playgroundReplValue := playgroundReplValue store;
     assessmentEditorTabs := assessmentEditorTabs store;
     assessmentActiveTab := assessmentActiveTab store;
     currentAssessmentId := currentAssessmentId store;
     currentAssessmentQuestion := currentAssessmentQuestion store;
     gradingEditorTabs := gradingEditorTabs store;
     gradingActiveTab := gradingActiveTab store;
     currentSubmissionId := submission;
     currentGradingQuestion := currentGradingQuestion store;
     assessments := assessments store;
     gradings := gradings store |}.

Definition withAssessment (store : StoreSlices) (assessment : option Z)
    : StoreSlices :=
  {| playgroundEditorTabs := playgroundEditorTabs store;
     playgroundActiveTab := playgroundActiveTab store;
     playgroundOutput := playgroundOutput store;
     playgroundReplValue := playgroundReplValue store;
     assessmentEditorTabs := assessmentEditorTabs store;
     assessmentActiveTab := assessmentActiveTab store;
     currentAssessmentId := assessment;
     currentAssessmentQuestion := currentAssessmentQuestion store;
     gradingEditorTabs := gradingEditorTabs store;
     gradingActiveTab := gradingActiveTab store;
     currentSubmissionId := currentSubmissionId store;
     currentGradingQuestion := currentGradingQuestion store;
     assessments := assessments store;
     gradings := gradings store |}.

Definition withPlaygroundOutput (store : StoreSlices) (output : list JsValue)
    : StoreSlices :=
  {| playgroundEditorTabs := playgroundEditorTabs store;
     playgroundActiveTab := playgroundActiveTab store;
     playgroundOutput := output;
     playgroundReplValue := playgroundReplValue store;
     assessmentEditorTabs := assessmentEditorTabs store;
     assessmentActiveTab := assessmentActiveTab store;
     currentAssessmentId := currentAssessmentId store;
     currentAssessmentQuestion := currentAssessmentQuestion store;
     gradingEditorTabs := gradingEditorTabs store;
     gradingActiveTab := gradingActiveTab store;
     currentSubmissionId := currentSubmissionId store;
     currentGradingQuestion := currentGradingQuestion store;
     assessments := assessments store;
     gradings := gradings store |}.

(* ================================================================= *)
(** * PixelChatbot.tsx: the draggable widget *)

(** Coordinates and sizes are JavaScript numbers.  The finite ones are
    rationals, and [Math.min] and [Math.max] are exact on them; an
    arithmetic operation gives the nearest number that can be represented,
    and that rounding is a parameter [round] of the model, of which nothing
    is assumed.  NaN and the infinities are left out. *)
Module Widget.

Local Open Scope Q_scope.

Definition ICON_SIZE : Q := 70.
Definition CHAT_WIDTH : Q := 400.
Definition CHAT_HEIGHT : Q := 450.
Definition CHAT_EXPANDED_WIDTH : Q := 700.
(** The number the literal [0.8] denotes. *)
Definition CHAT_EXPANDED_HEIGHT_VH : Q := 3602879701896397 # 4503599627370496.
Definition CHAT_EXPANDED_MAX_HEIGHT : Q := 800.

(** [window.innerWidth] and [window.innerHeight]. *)
Record Viewport := { innerWidth : Q; innerHeight : Q }.

Record Position := { x : Q; y : Q }.

Section Clamp.

Variable round : Q -> Q.

Definition containerW (chatOpen expanded : bool) : Q :=
  if chatOpen then (if expanded then CHAT_EXPANDED_WIDTH else CHAT_WIDTH)
  else ICON_SIZE.

Definition expandedH (window : Viewport) : Q :=
  Qmin (round (innerHeight window * CHAT_EXPANDED_HEIGHT_VH))
       CHAT_EXPANDED_MAX_HEIGHT.

Definition containerH (window : Viewport) (chatOpen expanded : bool) : Q :=
  if chatOpen
  then round ((if expanded then expandedH window else CHAT_HEIGHT) + ICON_SIZE)
  else ICON_SIZE.

Definition minX (window : Viewport) (chatOpen expanded : bool) : Q :=
  round (containerW chatOpen expanded - innerWidth window).

Definition minY (window : Viewport) (chatOpen expanded : bool) : Q :=
  round (containerH window chatOpen expanded - innerHeight window).

(** [clampPosition(x, y, chatOpen, expanded)], with the window it reads:
<<
  return {
    x: Math.min(maxX, Math.max(minX, x)),
    y: Math.min(maxY, Math.max(minY, y))
  };
>>
    where [maxX] and [maxY] are 0. *)
Definition clampPosition (window : Viewport) (px py : Q)
    (chatOpen expanded : bool) : Position :=
  let maxX := 0 in
  let maxY := 0 in
  {| x := Qmin maxX (Qmax (minX window chatOpen expanded) px);
     y := Qmin maxY (Qmax (minY window chatOpen expanded) py) |}.

(** The state of the [PixelChatbot] component. *)
Record ChatbotState := {
  isPop : bool;
  isDivVisible : bool;
  tipsMessage : jsstring;
  activeSnippetId : jsstring;
  isExpanded : bool;
  position : Position;
  isDragging : bool
}.

Definition initialState : ChatbotState :=
  {| isPop := false; isDivVisible := false;
     tipsMessage := lit "Click me for a chat!";
     activeSnippetId := []; isExpanded := false;
     position := {| x := 0; y := 0 |}; isDragging := false |}.

(** [isSnippetOpen]: the widget is hidden while a snippet is open. *)
Definition isSnippetOpen (s : ChatbotState) : bool :=
  negb (streq (activeSnippetId s) []).

Definition toggleExpanded (window : Viewport) (s : ChatbotState)
    : ChatbotState :=
  let next := negb (isExpanded s) in
  {| isPop := isPop s; isDivVisible := isDivVisible s;
     tipsMessage := tipsMessage s; activeSnippetId := activeSnippetId s;
     isExpanded := next;
     position := clampPosition window (x (position s)) (y (position s))
                   true next;
     isDragging := isDragging s |}.

Definition togglePop (window : Viewport) (s : ChatbotState) : ChatbotState :=
  if isDragging s then s
  else
    let willOpen := negb (isPop s) in
    if willOpen then
      {| isPop := willOpen; isDivVisible := isDivVisible s;
         tipsMessage := [];
         activeSnippetId := activeSnippetId s; isExpanded := isExpanded s;
         position := clampPosition window (x (position s)) (y (position s))
                       true (isExpanded s);
         isDragging := isDragging s |}
    else
      {| isPop := willOpen; isDivVisible := isDivVisible s;
         tipsMessage := lit "Click me for a chat!";
         activeSnippetId := activeSnippetId s; isExpanded := isExpanded s;
         position := position s; isDragging := isDragging s |}.

Definition handleResize (window : Viewport) (s : ChatbotState)
    : ChatbotState :=
  {| isPop := isPop s; isDivVisible := isDivVisible s;
     tipsMessage := tipsMessage s; activeSnippetId := activeSnippetId s;
     isExpanded := isExpanded s;
     position := clampPosition window (x (position s)) (y (position s))
                   (isPop s) (isExpanded s);
     isDragging := isDragging s |}.

Definition setIsDragging (s : ChatbotState) (b : bool) : ChatbotState :=
  {| isPop := isPop s; isDivVisible := isDivVisible s;
     tipsMessage := tipsMessage s; activeSnippetId := activeSnippetId s;
     isExpanded := isExpanded s; position := position s; isDragging := b |}.

Definition setIsDivVisible (s : ChatbotState) (b : bool) : ChatbotState :=
  {| isPop := isPop s; isDivVisible := b;
     tipsMessage := tipsMessage s; activeSnippetId := activeSnippetId s;
     isExpanded := isExpanded s; position := position s;
     isDragging := isDragging s |}.

Definition setActiveSnippetId (s : ChatbotState) (snippet : jsstring)
    : ChatbotState :=
  {| isPop := isPop s; isDivVisible := isDivVisible s;
     tipsMessage := tipsMessage s; activeSnippetId := snippet;
     isExpanded := isExpanded s; position := position s;
     isDragging := isDragging s |}.

Definition handleDragStart (s : ChatbotState) : ChatbotState :=
  setIsDragging s false.

Definition handleDrag (s : ChatbotState) : ChatbotState :=
  setIsDivVisible (setIsDragging s true) false.

(** [handleDragStop]: the position is clamped at once; [isDragging] is
    reset by a timer, which is the event [DragTimeout] below. *)
Definition handleDragStop (window : Viewport) (s : ChatbotState)
    (dataX dataY : Q) : ChatbotState :=
  {| isPop := isPop s; isDivVisible := isDivVisible s;
     tipsMessage := tipsMessage s; activeSnippetId := activeSnippetId s;
     isExpanded := isExpanded s;
     position := clampPosition window dataX dataY (isPop s) (isExpanded s);
     isDragging := isDragging s |}.

(** [onMouseEnter={() => !isDragging && setIsDivVisible(true)}] *)
Definition onMouseEnter (s : ChatbotState) : ChatbotState :=
  if isDragging s then s else setIsDivVisible s true.

Definition onMouseLeave (s : ChatbotState) : ChatbotState :=
  setIsDivVisible s false.

(** What can happen to the widget, each event with the window as it is
    when the handler runs. *)
Inductive Event :=
| ClickIcon           (* onClick of the button: togglePop *)
| ClickExpand         (* the expand button of the chat box: toggleExpanded *)
| Resize              (* the window's resize event *)
| DragStart
| Drag
| DragStop (dataX dataY : Q)
| DragTimeout         (* the timer set by handleDragStop *)
| MouseEnter
| MouseLeave
| SnippetChange (snippet : jsstring).

Definition step (window : Viewport) (s : ChatbotState) (e : Event)
    : ChatbotState :=
  match e with
  | ClickIcon => togglePop window s
  | ClickExpand => toggleExpanded window s
  | Resize => handleResize window s
  | DragStart => handleDragStart s
  | Drag => handleDrag s
  | DragStop dataX dataY => handleDragStop window s dataX dataY
  | DragTimeout => setIsDragging s false
  | MouseEnter => onMouseEnter s
  | MouseLeave => onMouseLeave s
  | SnippetChange snippet => setActiveSnippetId s snippet
  end.

Fixpoint run (s : ChatbotState) (events : list (Viewport * Event))
    : ChatbotState :=
  match events with
  | [] => s
  | (window, e) :: rest => run (step window s e) rest
  end.

End Clamp.

(** What every handler keeps: the tip is empty while the chat is open and
    the invitation while it is closed, and the widget is not to the right
    of or below its origin. *)
Definition invariant (s : ChatbotState) : Prop :=
  tipsMessage s = (if isPop s then [] else lit "Click me for a chat!") /\
  x (position s) <= 0 /\ y (position s) <= 0.

End Widget.

(* ================================================================= *)
(** * api.ts and the state of [PixelChatBox] *)

Module Api.

(** What [request] resolves to: [null], or a response with its status, its
    text and its body ([None] where the body is not the JSON expected, so
    that [response.json()] rejects). *)
Record Response (A : Type) := {
  ok : bool;
  text : jsstring;
  json : option A
}.
Arguments ok {A} _.
Arguments text {A} _.
Arguments json {A} _.

Inductive Rejection :=
| Error (message : jsstring)   (* [throw new Error(message)] *)
| JsonRejected.                (* the rejection of [response.json()] *)

Record InitPixelChatResponse := {
  messages : option (list PixelChatMessage);  (* may be missing at run time *)
  conversationId : Z;
  maxContentSize : Z
}.

Record ContinuePixelChatResponse := {
  response : jsstring;
  continuedConversationId : Z
}.

(** The outcome of a call, given what [request] resolved to:
<<
  if (!response) { throw new Error('Unknown error occurred.'); }
  if (!response.ok) {
    const message = await response.text();
    throw new Error(`<prefix>${message}`);
  }
  return await response.json();
>> *)
Definition handleResponse {A} (failurePrefix : jsstring)
    (resp : option (Response A)) : Rejection + A :=
  match resp with
  | None => inl (Error (lit "Unknown error occurred."))
  | Some r =>
      if negb (ok r) then inl (Error (failurePrefix ++ text r))
      else match json r with
           | Some body => inr body
           | None => inl JsonRejected
           end
  end.

Definition initPixelChat (resp : option (Response InitPixelChatResponse))
    : Rejection + InitPixelChatResponse :=
  handleResponse (lit "Failed to initialize Pixel chat: ") resp.

(** The body [continuePixelChat] posts to [pixel/message]. *)
Record MessageBody := {
  message : jsstring;
  bodyPageContext : jsstring;
  bodyPageType : jsstring
}.

Definition continuePixelChat
    (resp : option (Response ContinuePixelChatResponse))
    : Rejection + ContinuePixelChatResponse :=
  handleResponse (lit "Failed to chat with Pixel: ") resp.

End Api.

Module ChatBox.

Section WithUuid.

(** [uuid()]: the ids it returns, in the order of the calls. *)
Variable uuid : nat -> jsstring.

(** The state of the component; [uuidCalls] counts the calls of [uuid]
    made so far. *)
Record State := {
  isLoading : bool;
  messages : list PixelChatMessage;
  userInput : jsstring;
  maxContentSize : Z;
  uuidCalls : nat
}.

Definition createInitialMessage (newId : jsstring) : PixelChatMessage :=
  {| id := newId;
     content := lit "Hi! I'm Pixel, your Source Academy assistant. How can I help you today?";
     role := assistant |}.

Definition createErrorMessage (newId : jsstring) : PixelChatMessage :=
  {| id := newId;
     content := lit "Sorry, something went wrong. Please try again later.";
     role := assistant |}.

(** The state at the first render. *)
Definition initialState : State :=
  {| isLoading := false;
     messages := [createInitialMessage (uuid 0)];
     userInput := [];
     maxContentSize := 1000;
     uuidCalls := 1 |}.

Definition handleUserInput (s : State) (value : jsstring) : State :=
  {| isLoading := isLoading s; messages := messages s; userInput := value;
     maxContentSize := maxContentSize s; uuidCalls := uuidCalls s |}.

(** [setMessages(prev => [...prev, msg])] for a message [msg] made with a
    fresh id: one call of [uuid]. *)
Definition appendFresh (s : State) (make : jsstring -> PixelChatMessage)
    : State :=
  {| isLoading := isLoading s;
     messages := messages s ++ [make (uuid (uuidCalls s))];
     userInput := userInput s;
     maxContentSize := maxContentSize s;
     uuidCalls := S (uuidCalls s) |}.

(** [setMessages(prev => [...prev, { id: uuid(), role, content }])] *)
Definition pushMessage (s : State) (r : Role) (text : jsstring) : State :=
  appendFresh s (fun newId => {| id := newId; role := r; content := text |}).

Definition setIsLoading (s : State) (b : bool) : State :=
  {| isLoading := b; messages := messages s; userInput := userInput s;
     maxContentSize := maxContentSize s; uuidCalls := uuidCalls s |}.

(** [sendMessage], up to the call of [continuePixelChat]: the new state and
    the body posted, if a request is made.
<<
  if (userInput.trim() === '') { return; }
  setUserInput('');
  setMessages(prev => [...prev, { id: uuid(), role: 'user', content: userInput }]);
  setIsLoading(true);
  continuePixelChat(tokens, userInput, pageContext, pageType)
>> *)
Definition sendMessage (s : State) (ctx : PageContext)
    : State * option Api.MessageBody :=
  match trim (userInput s) with
  | [] => (s, None)
  | _ :: _ =>
      (setIsLoading
         (pushMessage (handleUserInput s []) user (userInput s)) true,
       Some {| Api.message := userInput s;
               Api.bodyPageContext := pageContext ctx;
               Api.bodyPageType := pageType ctx |})
  end.

(** The handlers of the promise:
<<
  .then(resp => { setMessages(prev => [...prev, { id: uuid(), role: 'assistant', content: resp.response }]); })
  .catch(() => { setMessages(prev => [...prev, createErrorMessage()]); })
  .finally(() => setIsLoading(false));
>> *)
Definition settle (s : State)
    (outcome : Api.Rejection + Api.ContinuePixelChatResponse) : State :=
  let s' :=
    match outcome with
    | inr resp => pushMessage s assistant (Api.response resp)
    | inl _ => appendFresh s createErrorMessage
    end in
  setIsLoading s' false.

(** [keyDown]: [if (e.key === 'Enter' && !isLoading) sendMessage()]. *)
Definition keyDown (s : State) (key : jsstring) (ctx : PageContext)
    : State * option Api.MessageBody :=
  if (streq key (lit "Enter") && negb (isLoading s))%bool
  then sendMessage s ctx
  else (s, None).

(** [conversationMessages.map(msg => ({ ...msg, id: msg.id || uuid() }))],
    with the number of calls of [uuid] before and after. *)
Fixpoint withIds (calls : nat) (msgs : list PixelChatMessage)
    : list PixelChatMessage * nat :=
  match msgs with
  | [] => ([], calls)
  | msg :: rest =>
      match id msg with
      | [] =>
          let (rest', calls') := withIds (S calls) rest in
          ({| id := uuid calls; role := role msg; content := content msg |}
             :: rest', calls')
      | _ :: _ =>
          let (rest', calls') := withIds calls rest in
          (msg :: rest', calls')
      end
  end.

(** The [then] handler of [resetChat]; a rejection of [initPixelChat] has
    no handler and leaves the state as it is. *)
Definition resetSettle (s : State)
    (outcome : Api.Rejection + Api.InitPixelChatResponse) : State :=
  match outcome with
  | inl _ => s
  | inr resp =>
      let (newMessages, calls) :=
        match Api.messages resp with
        | Some (msg :: rest) => withIds (uuidCalls s) (msg :: rest)
        | _ => ([createInitialMessage (uuid (uuidCalls s))], S (uuidCalls s))
        end in
      {| isLoading := isLoading s;
         messages := newMessages;
         userInput := [];
         maxContentSize := Api.maxContentSize resp;
         uuidCalls := calls |}
  end.

(** The component with the requests it has in flight.  The Send button is
    disabled while loading, so its click reaches [sendMessage] only when
    not loading; a response can arrive only for a request in flight. *)
Record Machine := { ui : State; inFlight : nat }.

Inductive Event :=
| Typed (value : jsstring)
| KeyDown (key : jsstring) (ctx : PageContext)
| ClickSend (ctx : PageContext)
| Settled (resp : option (Api.Response Api.ContinuePixelChatResponse))
| ResetSettled (resp : option (Api.Response Api.InitPixelChatResponse)).

Definition issued (m : Machine) (r : State * option Api.MessageBody)
    : Machine :=
  {| ui := fst r;
     inFlight := match snd r with
                 | Some _ => S (inFlight m)
                 | None => inFlight m
                 end |}.

Definition step (m : Machine) (e : Event) : Machine :=
  match e with
  | Typed value =>
      {| ui := handleUserInput (ui m) value; inFlight := inFlight m |}
  | KeyDown key ctx => issued m (keyDown (ui m) key ctx)
  | ClickSend ctx =>
      if isLoading (ui m) then m else issued m (sendMessage (ui m) ctx)
  | Settled resp =>
      match inFlight m with
      | O => m
      | S n =>
          {| ui := settle (ui m) (Api.continuePixelChat resp);
             inFlight := n |}
      end
  | ResetSettled resp =>
      {| ui := resetSettle (ui m) (Api.initPixelChat resp);
         inFlight := inFlight m |}
  end.

Definition run (m : Machine) (events : list Event) : Machine :=
  fold_left step events m.


End WithUuid.

End ChatBox.

(* ================================================================= *)
(** * Lemmas on strings *)

Section StringLemmas.

Lemma streq_eq (s t : jsstring) : streq s t = true <-> s = t.
Proof.
  revert t; induction s as [|c s IH]; intros [|d t]; simpl; split;
    try congruence; try reflexivity.
  - intros H; apply andb_true_iff in H as [Hc Hs].
    apply N.eqb_eq in Hc; apply IH in Hs; congruence.
  - intros H; injection H as -> ->.
    apply andb_true_iff; split; [apply N.eqb_refl | now apply IH].
Qed.

Lemma startsWith_app (p t : jsstring) : startsWith p (p ++ t) = true.
Proof.
  induction p as [|c p IH]; simpl; [reflexivity|].
  now rewrite N.eqb_refl, IH.
Qed.

Lemma startsWith_inv (p s : jsstring) :
  startsWith p s = true -> s = p ++ skipn (length p) s.
Proof.
  revert s; induction p as [|c p IH]; intros s H; simpl in *; [reflexivity|].
  destruct s as [|d s]; [discriminate|].
  apply andb_true_iff in H as [Hc Hs].
  apply N.eqb_eq in Hc; subst d.
  simpl; f_equal; now apply IH.
Qed.

Lemma startsWith_iff (p s : jsstring) :
  startsWith p s = true <-> exists t, s = p ++ t.
Proof.
  split.
  - intros H; eexists; now apply startsWith_inv.
  - intros [t ->]; apply startsWith_app.
Qed.

(** A prefix test only looks at the first [length p] code units. *)
Lemma startsWith_firstn (p s : jsstring) (n : nat) :
  length p <= n -> startsWith p (firstn n s) = startsWith p s.
Proof.
  revert s n; induction p as [|c p IH]; intros s n Hn; simpl; [reflexivity|].
  destruct n as [|n]; [simpl in Hn; lia|].
  destruct s as [|d s]; simpl; [reflexivity|].
  rewrite IH; [reflexivity | simpl in Hn; lia].
Qed.

Lemma takeWhile_dropWhile (p : codeunit -> bool) (s : jsstring) :
  takeWhile p s ++ dropWhile p s = s.
Proof.
  induction s as [|c s IH]; simpl; [reflexivity|].
  destruct (p c); simpl; congruence.
Qed.

Lemma skipn_takeWhile (p : codeunit -> bool) (s : jsstring) :
  skipn (length (takeWhile p s)) s = dropWhile p s.
Proof.
  induction s as [|c s IH]; simpl; [reflexivity|].
  destruct (p c); simpl; [exact IH | reflexivity].
Qed.

Lemma takeWhile_all (p : codeunit -> bool) (s : jsstring) :
  forallb p (takeWhile p s) = true.
Proof.
  induction s as [|c s IH]; simpl; [reflexivity|].
  destruct (p c) eqn:E; simpl; [now rewrite E | reflexivity].
Qed.

Lemma dropWhile_head (p : codeunit -> bool) (s : jsstring) (c : codeunit)
    (r : jsstring) :
  dropWhile p s = c :: r -> p c = false.
Proof.
  induction s as [|d s IH]; simpl; [discriminate|].
  destruct (p d) eqn:E; [exact IH | congruence].
Qed.

(** The longest run: when the code unit behind a run fails [p], the run is
    what [takeWhile] takes. *)
Lemma takeWhile_app_stop (p : codeunit -> bool) (run : jsstring)
    (c : codeunit) (rest : jsstring) :
  forallb p run = true -> p c = false ->
  takeWhile p (run ++ c :: rest) = run.
Proof.
  intros Hrun Hc; induction run as [|d run IH]; simpl in *.
  - now rewrite Hc.
  - apply andb_true_iff in Hrun as [Hd Hrun].
    rewrite Hd; f_equal; now apply IH.
Qed.

Lemma takeWhile_app_all (p : codeunit -> bool) (run rest : jsstring) :
  forallb p run = true ->
  takeWhile p (run ++ rest) = run ++ takeWhile p rest.
Proof.
  intros Hrun; induction run as [|d run IH]; simpl in *; [reflexivity|].
  apply andb_true_iff in Hrun as [Hd Hrun].
  rewrite Hd; f_equal; now apply IH.
Qed.

Lemma skipn_app_length {A} (l r : list A) : skipn (length l) (l ++ r) = r.
Proof. induction l; simpl; auto. Qed.

Lemma firstn_app_length {A} (l r : list A) : firstn (length l) (l ++ r) = l.
Proof. induction l; simpl; congruence. Qed.

Lemma indexOf_Some (p s : jsstring) (k : nat) :
  indexOf p s = Some k ->
  s = firstn k s ++ p ++ skipn (k + length p) s.
Proof.
  revert k; induction s as [|c s IH]; intros k; simpl.
  - destruct (startsWith p []) eqn:E; [|discriminate].
    intros [= <-]; destruct p; [reflexivity | discriminate].
  - destruct (startsWith p (c :: s)) eqn:E.
    + intros [= <-]; simpl; now apply startsWith_inv.
    + destruct (indexOf p s) as [j|]; [|discriminate].
      intros [= <-]; simpl; f_equal; now apply IH.
Qed.

Lemma indexOf_bound (p s : jsstring) (k : nat) :
  indexOf p s = Some k -> k + length p <= length s.
Proof.
  revert k; induction s as [|c s IH]; intros k; simpl.
  - destruct (startsWith p []) eqn:E; [|discriminate].
    intros [= <-]; destruct p; [simpl; lia | discriminate].
  - destruct (startsWith p (c :: s)) eqn:E.
    + intros [= <-]. apply startsWith_inv in E.
      apply (f_equal (@length _)) in E. rewrite length_app in E.
      simpl in *; lia.
    + destruct (indexOf p s) as [j|]; [|discriminate].
      intros [= <-]. specialize (IH j eq_refl). simpl; lia.
Qed.

Lemma indexOf_None (p s : jsstring) :
  indexOf p s = None -> forall a b, s <> a ++ p ++ b.
Proof.
  induction s as [|c s IH]; simpl.
  - destruct (startsWith p []) eqn:E; [discriminate|].
    intros _ a b H. destruct a; destruct p; simpl in *; discriminate.
  - destruct (startsWith p (c :: s)) eqn:E; [discriminate|].
    destruct (indexOf p s) eqn:Ei; [discriminate|].
    intros _ [|a0 a] b H; simpl in H.
    + rewrite H, startsWith_app in E; discriminate.
    + injection H as _ H. exact (IH eq_refl a b H).
Qed.

Lemma includes_false (p s : jsstring) :
  includes p s = false -> forall a b, s <> a ++ p ++ b.
Proof.
  unfold includes; destruct (indexOf p s) eqn:E; [discriminate|].
  intros _; now apply indexOf_None.
Qed.

Lemma split_nonempty (sep : codeunit) (s : jsstring) : split sep s <> [].
Proof.
  induction s as [|c s IH]; simpl; [discriminate|].
  destruct (N.eqb c sep); [discriminate|].
  destruct (split sep s); [contradiction | discriminate].
Qed.

(** Splitting at a code unit and joining with it gives the string back. *)
Lemma join_split (sep : codeunit) (s : jsstring) :
  join [sep] (split sep s) = s.
Proof.
  induction s as [|c s IH]; simpl; [reflexivity|].
  destruct (N.eqb c sep) eqn:E.
  - apply N.eqb_eq in E; subst c.
    pose proof (split_nonempty sep s) as Hne.
    destruct (split sep s) as [|l ls]; [contradiction|].
    simpl in *; now rewrite IH.
  - pose proof (split_nonempty sep s) as Hne.
    destruct (split sep s) as [|l ls]; [contradiction|].
    destruct ls; simpl in *; now rewrite <- IH.
Qed.

End StringLemmas.

(* ================================================================= *)
(** * [truncate] *)

(** C2, as the specification states it, fails: the text kept is followed by
    a newline and then the marker, so the marker does not follow the prefix
    directly and the length is one more than the specification says. *)
Lemma truncate_marker_not_adjacent :
  2 < length (lit "abcd") /\
  truncate (lit "abcd") 2 <> firstn 2 (lit "abcd") ++ truncatedMarker /\
  length (truncate (lit "abcd") 2) <> 2 + length truncatedMarker.
Proof.
  vm_compute; repeat split; try lia; discriminate.
Qed.

(** C2 (amended): a text of length at most [L] is returned unchanged; a
    longer one is cut to its first [L] code units, followed by a newline and
    the marker ["... [truncated]"]; the result then has length
    [L + 1 + length marker], and the part kept is a prefix of the input. *)
Theorem truncate_rule (text : jsstring) (L : nat) :
  (length text <= L -> truncate text L = text) /\
  (L < length text ->
     truncate text L = firstn L text ++ nl :: truncatedMarker /\
     length (truncate text L) = L + 1 + length truncatedMarker /\
     exists rest, text = firstn L text ++ rest).
Proof.
  unfold truncate, slice, truncatedSuffix; split; intros H.
  - apply Nat.leb_le in H; now rewrite H.
  - assert (E : Nat.leb (length text) L = false) by (apply Nat.leb_gt; exact H).
    rewrite E, Nat.sub_0_r; simpl skipn.
    repeat split.
    + rewrite length_app, length_firstn; simpl; lia.
    + exists (skipn L text); symmetry; apply firstn_skipn.
Qed.

Lemma truncate_rule_witness :
  truncate (lit "ab") 5 = lit "ab" /\
  truncate (lit "abcd") 2 = lit "ab" ++ nl :: lit "... [truncated]".
Proof.
  split.
  - apply (proj1 (truncate_rule (lit "ab") 5)); vm_compute; lia.
  - apply (proj2 (truncate_rule (lit "abcd") 2)); vm_compute; lia.
Defined.

(* ================================================================= *)
(** * [stripHtml] *)

Section StripHtml.

Lemma removeMatches_inside (m : jsstring -> option nat) (s : jsstring) (k : nat) :
  removeMatches m s k = removeMatches m (skipn k s) 0.
Proof.
  revert k; induction s as [|c s IH]; intros [|k]; try reflexivity.
  simpl removeMatches at 1; simpl skipn; apply IH.
Qed.

Lemma notgt_forallb (s : jsstring) :
  forallb notGt s = true -> ~ In gt_sign s.
Proof.
  induction s as [|c s IH]; simpl; [tauto|].
  intros H; apply andb_true_iff in H as [Hc Hs].
  intros [->|Hin]; [discriminate Hc | now apply IH].
Qed.

Lemma matchTagAt_Some (s : jsstring) (n : nat) :
  matchTagAt s = Some n ->
  exists body rest,
    s = lt_sign :: body ++ gt_sign :: rest /\ ~ In gt_sign body /\
    n = length body + 2.
Proof.
  destruct s as [|c s1]; unfold matchTagAt; [discriminate|].
  destruct (N.eqb c lt_sign) eqn:Ec; [|discriminate].
  apply N.eqb_eq in Ec; subst c.
  set (p := notGt).
  cbv zeta. rewrite (skipn_takeWhile p s1).
  destruct (dropWhile p s1) as [|d rest] eqn:Ed; [discriminate|].
  destruct (N.eqb d gt_sign) eqn:Eg; [|discriminate].
  apply N.eqb_eq in Eg; subst d.
  intros [= <-]; exists (takeWhile p s1), rest; repeat split.
  - now rewrite <- Ed, takeWhile_dropWhile.
  - apply notgt_forallb, takeWhile_all.
Qed.

Lemma matchTagAt_None (s1 : jsstring) :
  matchTagAt (lt_sign :: s1) = None -> ~ In gt_sign s1.
Proof.
  unfold matchTagAt. rewrite N.eqb_refl.
  set (p := notGt).
  cbv zeta. rewrite (skipn_takeWhile p s1).
  destruct (dropWhile p s1) as [|d rest] eqn:Ed.
  - intros _. apply notgt_forallb.
    rewrite <- (takeWhile_dropWhile p s1), Ed, app_nil_r.
    apply takeWhile_all.
  - pose proof (dropWhile_head _ _ _ _ Ed) as Hd.
    unfold p, notGt in Hd. apply negb_false_iff in Hd. now rewrite Hd.
Qed.

Lemma matchTagAt_not_lt (c : codeunit) (s1 : jsstring) :
  c <> lt_sign -> matchTagAt (c :: s1) = None.
Proof.
  intros H; unfold matchTagAt. apply N.eqb_neq in H. now rewrite H.
Qed.

(** The scan of the regular expression deletes the spans the specification
    describes. *)
Lemma removeMatches_spans (n : nat) : forall s,
  length s <= n -> SpansDeleted s (removeMatches matchTagAt s 0).
Proof.
  induction n as [|n IH]; intros [|c s1] Hlen; simpl in Hlen; try lia;
    try (simpl; constructor).
  cbn [removeMatches].
  destruct (matchTagAt (c :: s1)) as [len|] eqn:Em.
  - destruct (matchTagAt_Some _ _ Em) as (body & rest & Hs & Hbody & ->).
    injection Hs as -> ->.
    replace (length body + 2) with (S (S (length body))) by lia.
    rewrite removeMatches_inside.
    replace (S (length body)) with (length (body ++ [gt_sign]))
      by (rewrite length_app; simpl; lia).
    replace (body ++ gt_sign :: rest) with ((body ++ [gt_sign]) ++ rest)
      by (now rewrite <- app_assoc).
    rewrite skipn_app_length, <- app_assoc; simpl.
    apply sd_span; [exact Hbody|].
    apply IH. rewrite length_app in Hlen; simpl in Hlen; lia.
  - destruct (N.eq_dec c lt_sign) as [->|Hc].
    + apply sd_unclosed; [now apply matchTagAt_None | apply IH; lia].
    + apply sd_keep; [exact Hc | apply IH; lia].
Qed.

Lemma forallb_rev (p : codeunit -> bool) (s : jsstring) :
  forallb p (rev s) = forallb p s.
Proof.
  induction s as [|c s IH]; simpl; [reflexivity|].
  rewrite forallb_app, IH; simpl. rewrite andb_true_r. apply andb_comm.
Qed.

(** [trim] removes a run of white space at each end, and what is left
    neither starts nor ends with white space. *)
Lemma trim_spec (t : jsstring) :
  exists l r,
    t = l ++ trim t ++ r /\
    forallb isWhiteSpace l = true /\ forallb isWhiteSpace r = true /\
    (forall c rest, trim t = c :: rest -> isWhiteSpace c = false) /\
    (forall c pre, trim t = pre ++ [c] -> isWhiteSpace c = false).
Proof.
  unfold trim, trimEnd, trimStart.
  set (u := dropWhile isWhiteSpace t).
  assert (Hu : u = rev (dropWhile isWhiteSpace (rev u))
                    ++ rev (takeWhile isWhiteSpace (rev u))).
  { rewrite <- rev_app_distr, takeWhile_dropWhile. now rewrite rev_involutive. }
  exists (takeWhile isWhiteSpace t), (rev (takeWhile isWhiteSpace (rev u))).
  repeat split.
  - rewrite <- Hu. unfold u. now rewrite takeWhile_dropWhile.
  - apply takeWhile_all.
  - rewrite forallb_rev. apply takeWhile_all.
  - intros c rest E. rewrite E in Hu. simpl in Hu.
    unfold u in Hu. exact (dropWhile_head _ _ _ _ Hu).
  - intros c pre E.
    apply (f_equal (@rev _)) in E.
    rewrite rev_involutive, rev_app_distr in E; simpl in E.
    exact (dropWhile_head _ _ _ _ E).
Qed.

Lemma first_gt_unique (a a' b b' : jsstring) :
  ~ In gt_sign a -> ~ In gt_sign a' ->
  a ++ gt_sign :: b = a' ++ gt_sign :: b' -> a = a' /\ b = b'.
Proof.
  revert a'; induction a as [|x a IH]; intros [|x' a'] Ha Ha' H;
    simpl in *.
  - injection H as ->; auto.
  - injection H as <- _. exfalso; apply Ha'; auto.
  - injection H as -> _. exfalso; apply Ha; auto.
  - injection H as -> H.
    destruct (IH a') as [-> ->]; auto.
Qed.

(** The spans to delete are determined by the text: [SpansDeleted] relates
    a text to one result only. *)
Lemma SpansDeleted_functional (s t : jsstring) :
  SpansDeleted s t -> forall t', SpansDeleted s t' -> t = t'.
Proof.
  induction 1 as [ | c s t Hc _ IH | s t Hs _ IH | body rest t Hb _ IH ];
    intros t' H'.
  - inversion H'; reflexivity.
  - inversion H'; subst; try congruence.
    f_equal; now apply IH.
  - inversion H' as [ | | | body' rest' ? Hb' Hr E ]; subst; try congruence.
    + f_equal; now apply IH.
    + exfalso; apply Hs. apply in_or_app; right; left; reflexivity.
  - inversion H' as [ | | ? ? Hs' Hr E | body' rest' ? Hb' Hr E ];
      subst; try congruence.
    + exfalso; apply Hs'. apply in_or_app; right; left; reflexivity.
    + destruct (first_gt_unique _ _ _ _ Hb Hb' (eq_sym E)) as [-> ->].
      now apply IH.
Qed.

End StripHtml.

(** C4, as the specification states it, fails: white space at the ends of
    the text lies outside every tag span and is removed all the same. *)
Lemma stripHtml_alters_text_outside_tags :
  ~ SpansDeleted (lit " a") (stripHtml (lit " a")).
Proof.
  vm_compute. intros H. inversion H.
Qed.

(** C4 (amended): [stripHtml] deletes every span from a [<] to the next
    [>], leaves the code units outside the spans unchanged, and then removes
    the white space at the two ends of the result: the output is the
    span-free text without its leading and trailing white space.  The
    specification's example strips to ["Hello World"]. *)
Theorem stripHtml_deletes_spans_then_trims :
  stripHtml (lit "<p>Hello <b>World</b></p>") = lit "Hello World" /\
  forall html, exists t l r,
    SpansDeleted html t /\
    t = l ++ stripHtml html ++ r /\
    forallb isWhiteSpace l = true /\ forallb isWhiteSpace r = true /\
    (forall c rest, stripHtml html = c :: rest -> isWhiteSpace c = false) /\
    (forall c pre, stripHtml html = pre ++ [c] -> isWhiteSpace c = false).
Proof.
  split; [reflexivity|].
  intros html.
  destruct (trim_spec (removeMatches matchTagAt html 0))
    as (l & r & Ht & Hl & Hr & Hhd & Hlast).
  exists (removeMatches matchTagAt html 0), l, r.
  split; [apply (removeMatches_spans (length html)); lia|].
  unfold stripHtml; auto.
Qed.

(* ================================================================= *)
(** * [MessageRenderer] *)

Section Renderer.


(** A match at the head of [s] spells out [s]. *)
Lemma matchCodeBlockAt_Some (s : jsstring) g1 g2 len :
  matchCodeBlockAt s = Some (g1, g2, len) ->
  exists tag rest,
    s = fence ++ tag ++ nl :: g2 ++ fence ++ rest /\
    forallb isWordChar tag = true /\
    g1 = tagCapture tag /\
    len = 7 + length tag + length g2.
Proof.
  unfold matchCodeBlockAt.
  destruct (startsWith fence s) eqn:Ef; [|discriminate].
  apply startsWith_inv in Ef. change (length fence) with 3 in Ef.
  set (s1 := skipn 3 s) in *. cbv zeta.
  rewrite (skipn_takeWhile isWordChar s1).
  destruct (dropWhile isWordChar s1) as [|c s2] eqn:Ed; [discriminate|].
  destruct (N.eqb c nl) eqn:Ec; [|discriminate].
  apply N.eqb_eq in Ec; subst c.
  destruct (indexOf fence s2) as [k|] eqn:Ei; [|discriminate].
  intros [= <- <- <-].
  pose proof (indexOf_bound _ _ _ Ei) as Hk.
  apply indexOf_Some in Ei. change (length fence) with 3 in *.
  exists (takeWhile isWordChar s1), (skipn (k + 3) s2).
  repeat split.
  - rewrite <- Ei, <- Ed, takeWhile_dropWhile. exact Ef.
  - apply takeWhile_all.
  - rewrite length_firstn. lia.
Qed.

Lemma searchCodeBlock_Some (s : jsstring) : forall pos m,
  searchCodeBlock s pos = Some m ->
  exists pre tag rest,
    s = pre ++ fence ++ tag ++ nl :: group2 m ++ fence ++ rest /\
    forallb isWordChar tag = true /\
    group1 m = tagCapture tag /\
    index m = pos + length pre /\
    lastIndexAfter m = index m + 7 + length tag + length (group2 m).
Proof.
  induction s as [|c s IH]; intros pos m; cbn [searchCodeBlock];
    destruct (matchCodeBlockAt _) as [[[g1 g2] len]|] eqn:Em.
  - intros [= <-]. destruct (matchCodeBlockAt_Some _ _ _ _ Em)
      as (tag & rest & Hs & Ht & Hg & ->).
    exists [], tag, rest; simpl; repeat split; auto; lia.
  - discriminate.
  - intros [= <-]. destruct (matchCodeBlockAt_Some _ _ _ _ Em)
      as (tag & rest & Hs & Ht & Hg & ->).
    exists [], tag, rest; simpl; repeat split; auto; lia.
  - intros H. destruct (IH _ _ H) as (pre & tag & rest & Hs & Ht & Hg & Hi & Hl).
    exists (c :: pre), tag, rest; simpl; repeat split; auto; try lia.
    now rewrite Hs.
Qed.

(** [exec] finds a code block only in a string that contains the fence. *)
Lemma codeBlockExec_Some (content : jsstring) (lastIndex : nat) m :
  lastIndex <= length content ->
  codeBlockExec content lastIndex = Some m ->
  exists pre tag rest,
    skipn lastIndex content
      = pre ++ fence ++ tag ++ nl :: group2 m ++ fence ++ rest /\
    forallb isWordChar tag = true /\
    group1 m = tagCapture tag /\
    index m = lastIndex + length pre /\
    lastIndexAfter m = index m + 7 + length tag + length (group2 m) /\
    lastIndexAfter m <= length content.
Proof.
  intros Hle H. unfold codeBlockExec in H.
  destruct (searchCodeBlock_Some _ _ _ H)
    as (pre & tag & rest & Hs & Ht & Hg & Hi & Hl).
  exists pre, tag, rest; repeat split; auto.
  pose proof (f_equal (@length _) Hs) as Hlen.
  rewrite length_skipn in Hlen.
  repeat (rewrite length_app in Hlen; simpl in Hlen).
  lia.
Qed.

Lemma slice_skipn_app (content : jsstring) (a : nat) (x y : jsstring) :
  skipn a content = x ++ y -> slice content a (a + length x) = x.
Proof.
  intros H. unfold slice. rewrite H.
  replace (a + length x - a) with (length x) by lia.
  apply firstn_app_length.
Qed.

Lemma skipn_skipn_app (content : jsstring) (a : nat) (x y : jsstring) :
  skipn a content = x ++ y -> skipn (a + length x) content = y.
Proof.
  intros H. rewrite Nat.add_comm, <- skipn_skipn, H. apply skipn_app_length.
Qed.


Lemma RoundTrip_app segs1 s1 segs2 s2 :
  RoundTrip segs1 s1 -> RoundTrip segs2 s2 ->
  RoundTrip (segs1 ++ segs2) (s1 ++ s2).
Proof.
  intros H1 H2; induction H1; [exact H2 | | | ]; reassoc;
    now constructor.
Qed.

Lemma RoundTrip_text (key text : jsstring) :
  RoundTrip [toSegment (textPart key text)] text.
Proof.
  unfold textPart; simpl.
  rewrite <- (join_split nl text) at 2.
  rewrite <- (app_nil_r (join [nl] (split nl text))).
  constructor. constructor.
Qed.

Lemma RoundTrip_code (messageId : jsstring) (i : nat) m (tag : jsstring) :
  group1 m = tagCapture tag ->
  RoundTrip [toSegment (codePart messageId i m)]
    (fence ++ tag ++ nl :: group2 m ++ fence).
Proof.
  intros Hg. unfold codePart. rewrite Hg.
  assert (E : forall key code lang (b : bool),
            toSegment (if b then CodeSnippet key code lang
                       else StaticCodeBlock key code lang)
            = CodeSegment lang code) by (now intros ? ? ? []).
  rewrite E.
  destruct tag as [|c tag]; simpl tagCapture; cbv iota.
  - replace (fence ++ [] ++ nl :: group2 m ++ fence)
      with (fence ++ nl :: group2 m ++ fence ++ []) by
      (now rewrite app_nil_r).
    apply rt_code_default. constructor.
  - replace (fence ++ (c :: tag) ++ nl :: group2 m ++ fence)
      with (fence ++ (c :: tag) ++ nl :: group2 m ++ fence ++ []) by
      (now rewrite app_nil_r).
    apply rt_code. constructor.
Qed.

(** The loop returns: every iteration moves [lastIndex] forward by at least
    seven code units.  What it has pushed spells out the content between
    the [lastIndex] it started at and the one it stopped at, where [exec]
    finds nothing more. *)
Lemma renderLoop_spec (messageId content : jsstring) : forall fuel lastIndex i parts,
  lastIndex <= length content ->
  length content - lastIndex < fuel ->
  exists stop parts',
    renderLoop fuel messageId content lastIndex i parts = Some (stop, parts') /\
    lastIndex <= stop <= length content /\
    codeBlockExec content stop = None /\
    exists pushed,
      parts' = parts ++ pushed /\
      RoundTrip (map toSegment pushed) (slice content lastIndex stop).
Proof.
  induction fuel as [|fuel IH]; intros lastIndex i parts Hle Hfuel; [lia|].
  cbn [renderLoop].
  destruct (codeBlockExec content lastIndex) as [m|] eqn:Ex.
  - destruct (codeBlockExec_Some _ _ _ Hle Ex)
      as (pre & tag & rest & Hs & Ht & Hg & Hi & Hl & Hbound).
    set (parts1 := if Nat.ltb lastIndex (index m) then _ else parts).
    destruct (IH (lastIndexAfter m) (S i)
                 (parts1 ++ [codePart messageId i m])) as
      (stop & parts' & Hrun & Hstop & Hnone & pushed & Hp & Hrt); [lia | lia |].
    exists stop, parts'; repeat split; auto; try lia.
    assert (Hpre : exists text,
               parts1 = parts ++ text /\ RoundTrip (map toSegment text) pre).
    { unfold parts1. destruct (Nat.ltb lastIndex (index m)) eqn:El.
      - eexists; split; [reflexivity|]. cbn [map].
        rewrite Hi, (slice_skipn_app _ _ _ _ Hs). apply RoundTrip_text.
      - apply Nat.ltb_ge in El. assert (length pre = 0) by lia.
        destruct pre; [|simpl in *; lia].
        exists []; split; [now rewrite app_nil_r | constructor]. }
    destruct Hpre as (text & Hparts1 & Hrtpre).
    exists (text ++ [codePart messageId i m] ++ pushed); split.
    + rewrite Hp, Hparts1. now rewrite <- !app_assoc.
    + rewrite !map_app.
      set (block := fence ++ tag ++ nl :: group2 m ++ fence).
      assert (Hs' : skipn lastIndex content = (pre ++ block) ++ rest).
      { rewrite Hs. unfold block. reassoc. reflexivity. }
      assert (Hlen : lastIndexAfter m = lastIndex + length (pre ++ block)).
      { unfold block. repeat (rewrite length_app; simpl). lia. }
      assert (Hcut : slice content lastIndex stop
                     = (pre ++ block) ++ slice content (lastIndexAfter m) stop).
      { unfold slice at 1 2. rewrite Hlen.
        rewrite (skipn_skipn_app _ _ _ _ Hs'), Hs'.
        rewrite firstn_app.
        rewrite firstn_all2 by lia.
        f_equal. f_equal. lia. }
      rewrite Hcut, <- app_assoc.
      apply RoundTrip_app; [exact Hrtpre|].
      apply RoundTrip_app; [|exact Hrt].
      apply RoundTrip_code. exact Hg.
  - exists lastIndex, parts; repeat split; auto; try lia.
    exists []; split; [now rewrite app_nil_r|].
    unfold slice. rewrite Nat.sub_diag. constructor.
Qed.

Lemma app_eq_prefix {A} (a b c d : list A) :
  a ++ b = c ++ d -> length a <= length c ->
  exists w, c = a ++ w /\ b = w ++ d.
Proof.
  revert c; induction a as [|x a IH]; intros c H Hlen; simpl in *.
  - exists c; auto.
  - destruct c as [|y c]; simpl in *; [lia|].
    injection H as -> H.
    destruct (IH c H) as (w & -> & ->); [lia|].
    exists w; auto.
Qed.

(** Where the fence occurs exactly once, each occurrence overlaps it. *)
Lemma fence_occurrence (pre rest x y : jsstring) :
  includes fence pre = false -> includes fence rest = false ->
  pre ++ fence ++ rest = x ++ fence ++ y ->
  length pre < length x + 3 /\ length x < length pre + 3.
Proof.
  intros Hpre Hrest H; split.
  - destruct (Nat.lt_ge_cases (length pre) (length x + 3)) as [|Hge]; [easy|].
    exfalso.
    assert (H' : (x ++ fence) ++ y = pre ++ fence ++ rest)
      by (now rewrite <- app_assoc).
    destruct (app_eq_prefix _ _ _ _ H') as (w & Hw & _).
    { rewrite length_app; simpl; lia. }
    apply (includes_false _ _ Hpre x w). now rewrite Hw, <- app_assoc.
  - destruct (Nat.lt_ge_cases (length x) (length pre + 3)) as [|Hge]; [easy|].
    exfalso.
    assert (H' : (pre ++ fence) ++ rest = x ++ fence ++ y)
      by (now rewrite <- app_assoc).
    destruct (app_eq_prefix _ _ _ _ H') as (w & Hw & Hr).
    { rewrite length_app; simpl; lia. }
    exact (includes_false _ _ Hrest w y Hr).
Qed.

(** Without a fence in the content, [exec] finds nothing. *)
Lemma codeBlockExec_no_fence (content : jsstring) :
  includes fence content = false -> codeBlockExec content 0 = None.
Proof.
  intros H. destruct (codeBlockExec content 0) as [m|] eqn:Ex; [|reflexivity].
  destruct (codeBlockExec_Some _ _ _ (Nat.le_0_l _) Ex)
    as (pre & tag & rest & Hs & _).
  cbn [skipn] in Hs. now apply includes_false with (a := pre)
    (b := tag ++ nl :: group2 m ++ fence ++ rest) in H.
Qed.

(** With a single fence in the content, [exec] finds nothing either: a code
    block needs a second fence behind the newline. *)
Lemma codeBlockExec_single_fence (pre rest : jsstring) :
  includes fence pre = false -> includes fence rest = false ->
  codeBlockExec (pre ++ fence ++ rest) 0 = None.
Proof.
  intros Hpre Hrest.
  destruct (codeBlockExec _ 0) as [m|] eqn:Ex; [|reflexivity]. exfalso.
  destruct (codeBlockExec_Some _ _ _ (Nat.le_0_l _) Ex)
    as (a & tag & b & Hs & _).
  cbn [skipn] in Hs. set (code := group2 m) in *.
  pose proof (fence_occurrence _ _ _ _ Hpre Hrest Hs) as [H1 _].
  assert (Hs2 : pre ++ fence ++ rest
                = (a ++ fence ++ tag ++ nl :: code) ++ fence ++ b)
    by (rewrite Hs; reassoc; reflexivity).
  pose proof (fence_occurrence _ _ _ _ Hpre Hrest Hs2) as [_ H2].
  repeat (rewrite length_app in H2; simpl in H2).
  assert (Htag : length tag = 0) by lia.
  assert (Hcode : length code = 0) by lia.
  destruct tag; [|simpl in Htag; lia].
  destruct code; [|simpl in Hcode; lia].
  symmetry in Hs.
  destruct (app_eq_prefix _ _ _ _ Hs) as (w & Hw & Hr); [lia|].
  assert (Hlw : length w = 2).
  { apply (f_equal (@length _)) in Hw. rewrite length_app in Hw. lia. }
  destruct w as [|w1 [|w2 [|w3 w]]]; simpl in Hlw; try lia.
  simpl in Hr. discriminate Hr.
Qed.

(** When [exec] finds nothing from the start, the message is one text part,
    or nothing at all when it is empty. *)
Lemma MessageRenderer_no_match (message : PixelChatMessage) :
  codeBlockExec (content message) 0 = None ->
  MessageRenderer message =
    Some (match content message with
          | [] => []
          | _ :: _ => [TextDiv (id message ++ lit "-text-end")
                         (split nl (content message))]
          end).
Proof.
  intros H. unfold MessageRenderer. cbn [renderLoop]. rewrite H.
  destruct (content message); reflexivity.
Qed.

(** The renderer returns for every message. *)
Lemma MessageRenderer_total (message : PixelChatMessage) :
  exists parts, MessageRenderer message = Some parts.
Proof.
  unfold MessageRenderer.
  destruct (renderLoop_spec (id message) (content message)
              (S (length (content message))) 0 0 [])
    as (stop & parts & -> & _); [lia | lia |].
  eauto.
Qed.

(** ** Complete code blocks *)

Lemma indexOf_app (p a b : jsstring) : exists k, indexOf p (a ++ p ++ b) = Some k.
Proof.
  destruct (indexOf p (a ++ p ++ b)) as [k|] eqn:E; [eauto|].
  exfalso. assert (Hi : includes p (a ++ p ++ b) = false)
    by (unfold includes; now rewrite E).
  exact (includes_false _ _ Hi a b eq_refl).
Qed.

(** The regular expression matches at the head of a block. *)
Lemma matchCodeBlockAt_block (tag body after : jsstring) :
  forallb isWordChar tag = true ->
  exists r, matchCodeBlockAt (fence ++ tag ++ nl :: body ++ fence ++ after)
            = Some r.
Proof.
  intros Ht. unfold matchCodeBlockAt. rewrite startsWith_app.
  assert (E : forall x : jsstring, skipn 3 (fence ++ x) = x) by reflexivity.
  cbv zeta. rewrite !E.
  rewrite (takeWhile_app_stop isWordChar tag nl _ Ht eq_refl).
  rewrite skipn_app_length, N.eqb_refl.
  destruct (indexOf_app fence body after) as [k ->]. eauto.
Qed.

(** The search does not step over a position at which the regular
    expression matches. *)
Lemma searchCodeBlock_finds (before s : jsstring) : forall pos,
  (exists r, matchCodeBlockAt s = Some r) ->
  exists m, searchCodeBlock (before ++ s) pos = Some m.
Proof.
  induction before as [|c before IH]; intros pos Hs.
  - destruct Hs as [[[g1 g2] len] Hs]. cbn [app].
    destruct s; cbn [searchCodeBlock]; rewrite Hs; eauto.
  - cbn [app searchCodeBlock].
    destruct (matchCodeBlockAt (c :: before ++ s)) as [[[g1 g2] len]|];
      [eauto | apply IH, Hs].
Qed.

(** [exec] finds nothing from the start exactly when the content holds no
    complete block. *)
Lemma codeBlockExec_None_iff (content : jsstring) :
  ~ HasCodeBlock content <-> codeBlockExec content 0 = None.
Proof.
  split.
  - intros Hno. destruct (codeBlockExec content 0) as [m|] eqn:Ex;
      [|reflexivity].
    exfalso. apply Hno.
    destruct (codeBlockExec_Some _ _ _ (Nat.le_0_l _) Ex)
      as (pre & tag & rest & Hs & Ht & _).
    cbn [skipn] in Hs. now exists pre, tag, (group2 m), rest.
  - intros Hnone (before & tag & body & after & Ht & ->).
    unfold codeBlockExec in Hnone. cbn [skipn] in Hnone.
    destruct (searchCodeBlock_finds before _ 0
                (matchCodeBlockAt_block tag body after Ht)) as [m Hm].
    congruence.
Qed.

Lemma codePart_cases (messageId : jsstring) (i : nat) (m : RegExpMatch) :
  exists key code language,
    codePart messageId i m = CodeSnippet key code language \/
    codePart messageId i m = StaticCodeBlock key code language.
Proof.
  unfold codePart.
  match goal with |- context [if ?b then _ else _] => destruct b end; eauto 6.
Qed.

(** A content with a complete block gives a code part. *)
Lemma MessageRenderer_first_block (message : PixelChatMessage) :
  HasCodeBlock (content message) ->
  exists parts key code language,
    MessageRenderer message = Some parts /\
    (In (CodeSnippet key code language) parts \/
     In (StaticCodeBlock key code language) parts).
Proof.
  intros Hblock.
  destruct (codeBlockExec (content message) 0) as [m|] eqn:Ex;
    [|now apply codeBlockExec_None_iff in Ex].
  destruct (codeBlockExec_Some _ _ _ (Nat.le_0_l _) Ex)
    as (pre & tag & rest & _ & _ & _ & Hi & Hl & Hbound).
  unfold MessageRenderer. cbn [renderLoop]. rewrite Ex.
  set (parts1 := if Nat.ltb 0 (index m) then _ else []).
  destruct (renderLoop_spec (id message) (content message)
              (length (content message)) (lastIndexAfter m) 1
              (parts1 ++ [codePart (id message) 0 m]))
    as (stop & parts' & -> & _ & _ & pushed & -> & _); [lia | lia |].
  destruct (codePart_cases (id message) 0 m)
    as (key & code & language & Hcode).
  eexists _, key, code, language. split; [reflexivity|].
  assert (Hin : In (codePart (id message) 0 m)
                  ((parts1 ++ [codePart (id message) 0 m]) ++ pushed)).
  { apply in_or_app; left. apply in_or_app; right. now left. }
  assert (Hend : forall p tail,
            In p ((parts1 ++ [codePart (id message) 0 m]) ++ pushed) ->
            In p (if Nat.ltb stop (length (content message))
                  then ((parts1 ++ [codePart (id message) 0 m]) ++ pushed)
                       ++ tail
                  else (parts1 ++ [codePart (id message) 0 m]) ++ pushed)).
  { intros p tail Hp. destruct (Nat.ltb stop _); [apply in_or_app; now left|].
    exact Hp. }
  destruct Hcode as [Hcode | Hcode]; [left | right];
    apply Hend; rewrite <- Hcode; exact Hin.
Qed.

Lemma slice_from_start (content : jsstring) (stop : nat) :
  slice content 0 stop ++ skipn stop content = content.
Proof. unfold slice. rewrite Nat.sub_0_r. simpl skipn. apply firstn_skipn. Qed.

End Renderer.

(** C1: the segments of every message, concatenated back (text lines
    joined by newline, code wrapped in the fence with its language tag, the
    tag left out where the default language stands for a missing one),
    give the content of the message. *)
Theorem renderMessage_roundtrip (message : PixelChatMessage) :
  exists segs,
    renderMessage message = Some segs /\ RoundTrip segs (content message).
Proof.
  unfold renderMessage, MessageRenderer.
  destruct (renderLoop_spec (id message) (content message)
              (S (length (content message))) 0 0 [])
    as (stop & parts & Hrun & Hstop & _ & pushed & -> & Hrt); [lia | lia |].
  rewrite Hrun. cbn [app option_map].
  eexists; split; [reflexivity|].
  pose proof (slice_from_start (content message) stop) as Hc.
  destruct (Nat.ltb stop (length (content message))) eqn:El.
  - rewrite map_app. rewrite <- Hc at 2.
    apply RoundTrip_app; [exact Hrt | apply RoundTrip_text].
  - apply Nat.ltb_ge in El. rewrite (skipn_all2 _ El), app_nil_r in Hc.
    now rewrite <- Hc.
Qed.


(** C3, as the specification states it, fails: the segments are not
    text ["a"], code ["x=1"], text ["b"]. *)
Lemma fencedExample_not_trimmed :
  renderMessage (mkMessage fencedExample)
  <> Some [TextSegment [lit "a"]; CodeSegment (lit "js") (lit "x=1");
           TextSegment [lit "b"]].
Proof.
  vm_compute. discriminate.
Qed.

(** C3 (amended): for the content ["a\n```js\nx=1\n```\nb"] the renderer
    returns three segments in order: the text ["a\n"] (the line ["a"] and an
    empty line), the code segment with language ["js"] and source ["x=1\n"]
    (the body up to the closing fence, with its last newline), and the text
    ["\nb"] (an empty line and the line ["b"]). *)
Theorem fencedExample_segments (messageId : jsstring) (r : Role) :
  renderMessage {| id := messageId; role := r; content := fencedExample |}
  = Some [TextSegment [lit "a"; []];
          CodeSegment (lit "js") (lit "x=1" ++ [nl]);
          TextSegment [[]; lit "b"]].
Proof.
  reflexivity.
Qed.

(** C7, as the specification states it, fails: the empty content has no
    fence and gives no segment at all. *)
Lemma empty_content_no_segment :
  includes fence (content (mkMessage [])) = false /\
  ~ exists lines, renderMessage (mkMessage []) = Some [TextSegment lines].
Proof.
  split; [reflexivity|]. intros [lines H]. vm_compute in H. discriminate H.
Qed.

(** C7 (amended): a content without a fence that is not empty gives exactly
    one text segment, whose lines joined by newline are the content; the
    empty content gives no segment. *)
Theorem no_fence_single_text (message : PixelChatMessage) :
  includes fence (content message) = false ->
  (content message <> [] ->
     renderMessage message = Some [TextSegment (split nl (content message))] /\
     join [nl] (split nl (content message)) = content message) /\
  (content message = [] -> renderMessage message = Some []).
Proof.
  intros H. apply codeBlockExec_no_fence in H.
  unfold renderMessage. rewrite (MessageRenderer_no_match _ H).
  split.
  - intros Hne. split; [|apply join_split].
    destruct (content message); [contradiction | reflexivity].
  - intros ->. reflexivity.
Qed.

Lemma no_fence_single_text_witness :
  renderMessage (mkMessage (lit "hello" ++ nl :: lit "world"))
  = Some [TextSegment [lit "hello"; lit "world"]].
Proof.
  apply (no_fence_single_text (mkMessage (lit "hello" ++ nl :: lit "world")));
    [reflexivity | discriminate].
Defined.

(** C8, as the specification states it, fails: in ["```\nx```\n```js\ny"]
    the last fence is never closed (no fence follows it), yet the block
    before it is rendered as a code segment, and the content is not a
    single text segment. *)
Lemma block_before_unterminated_fence :
  blockThenUnterminated
  = (fence ++ nl :: lit "x" ++ fence)
      ++ nl :: fence ++ lit "js" ++ nl :: lit "y" /\
  includes fence (lit "js" ++ nl :: lit "y") = false /\
  renderMessage (mkMessage blockThenUnterminated)
  = Some [CodeSegment (lit "javascript") (lit "x");
          TextSegment [[]; lit "```js"; lit "y"]] /\
  ~ exists lines,
      renderMessage (mkMessage blockThenUnterminated)
      = Some [TextSegment lines].
Proof.
  split; [reflexivity|]. split; [reflexivity|]. split; [reflexivity|].
  intros [lines H]. vm_compute in H. discriminate H.
Qed.

(** C8 (amended): the renderer never fails, and a content that is not
    empty and holds no complete code block (a fence, an optional tag of word
    characters, a newline, any text, a fence) is returned whole as one text
    segment, whatever fences it has: each opening marker is plain text.
    This is the case of every content with a single fence.  A content that
    holds a complete block has a code segment, also when a fence behind
    the block is never closed. *)
Theorem no_complete_block_single_text (message : PixelChatMessage) :
  (~ HasCodeBlock (content message) -> content message <> [] ->
     renderMessage message = Some [TextSegment (split nl (content message))] /\
     join [nl] (split nl (content message)) = content message) /\
  (forall pre rest,
     content message = pre ++ fence ++ rest ->
     includes fence pre = false -> includes fence rest = false ->
     ~ HasCodeBlock (content message)) /\
  (HasCodeBlock (content message) ->
     exists segs language source,
       renderMessage message = Some segs /\
       In (CodeSegment language source) segs).
Proof.
  split; [|split].
  - intros Hno Hne. apply codeBlockExec_None_iff in Hno.
    split; [|apply join_split].
    unfold renderMessage. rewrite (MessageRenderer_no_match _ Hno).
    destruct (content message); [contradiction | reflexivity].
  - intros pre rest Hc Hpre Hrest. apply codeBlockExec_None_iff.
    rewrite Hc. now apply codeBlockExec_single_fence.
  - intros Hblock.
    destruct (MessageRenderer_first_block message Hblock)
      as (parts & key & code & language & Hrun & Hin).
    exists (map toSegment parts), language, code. split.
    + unfold renderMessage. now rewrite Hrun.
    + apply in_map_iff. destruct Hin as [Hin | Hin];
        eexists; (split; [|exact Hin]); reflexivity.
Qed.

Lemma no_complete_block_single_text_witness :
  renderMessage (mkMessage unterminatedExample)
  = Some [TextSegment [lit "a"; lit "```js"; lit "x=1"]] /\
  renderMessage (mkMessage strayFenceExample)
  = Some [TextSegment [lit "see ``` and"; lit "```js"; lit "x=1"]] /\
  ~ HasCodeBlock (content (mkMessage unterminatedExample)) /\
  exists segs language source,
    renderMessage (mkMessage blockThenUnterminated) = Some segs /\
    In (CodeSegment language source) segs.
Proof.
  split; [|split; [|split]].
  - destruct (no_complete_block_single_text (mkMessage unterminatedExample))
      as (Hsingle & _ & _).
    apply Hsingle; [apply codeBlockExec_None_iff; reflexivity | discriminate].
  - destruct (no_complete_block_single_text (mkMessage strayFenceExample))
      as (Hsingle & _ & _).
    apply Hsingle; [apply codeBlockExec_None_iff; reflexivity | discriminate].
  - destruct (no_complete_block_single_text (mkMessage unterminatedExample))
      as (_ & Hone & _).
    apply (Hone (lit "a" ++ [nl]) (lit "js" ++ nl :: lit "x=1")); reflexivity.
  - destruct (no_complete_block_single_text (mkMessage blockThenUnterminated))
      as (_ & _ & Hblock).
    apply Hblock.
    exists [], [], (lit "x"), (nl :: lit "```js" ++ nl :: lit "y").
    split; reflexivity.
Defined.

(* ================================================================= *)
(** * [buildPageContext] *)

Section PageContextLemmas.

(** ** The course route *)

Lemma isDigit_not_slash (c : codeunit) : isDigit c = true -> c <> slash.
Proof. intros H ->. discriminate H. Qed.

Lemma courseMatch_coursePath (digits rest : jsstring) :
  digits <> [] -> forallb isDigit digits = true ->
  courseMatch (coursePath digits rest)
  = Some (digits, takeWhile notLineTerminator rest).
Proof.
  intros Hne Hd. unfold courseMatch, coursePath.
  rewrite startsWith_app.
  change 9 with (length (lit "/courses/")). rewrite skipn_app_length.
  cbv zeta.
  rewrite (takeWhile_app_stop isDigit digits slash rest Hd eq_refl).
  rewrite skipn_app_length.
  destruct digits; [contradiction|]. reflexivity.
Qed.

Lemma courseMatch_Some (pathname digits subPath : jsstring) :
  courseMatch pathname = Some (digits, subPath) ->
  exists rest,
    digits <> [] /\ forallb isDigit digits = true /\
    pathname = coursePath digits rest /\
    subPath = takeWhile notLineTerminator rest.
Proof.
  unfold courseMatch.
  destruct (startsWith (lit "/courses/") pathname) eqn:Ep; [|discriminate].
  apply startsWith_inv in Ep. change (length (lit "/courses/")) with 9 in Ep.
  set (s1 := skipn 9 pathname) in *. cbv zeta.
  rewrite (skipn_takeWhile isDigit s1).
  destruct (takeWhile isDigit s1) as [|d ds] eqn:Et; [discriminate|].
  destruct (dropWhile isDigit s1) as [|c s2] eqn:Ed; [discriminate|].
  destruct (N.eqb c slash) eqn:Ec; [|discriminate].
  apply N.eqb_eq in Ec; subst c.
  intros [= <- <-]. exists s2. repeat split.
  - discriminate.
  - rewrite <- Et. apply takeWhile_all.
  - unfold coursePath. now rewrite <- Ed, <- Et, takeWhile_dropWhile.
Qed.

Lemma courseMatch_None (pathname : jsstring) :
  ~ isCoursePath pathname -> courseMatch pathname = None.
Proof.
  intros H. destruct (courseMatch pathname) as [[digits subPath]|] eqn:E;
    [|reflexivity].
  destruct (courseMatch_Some _ _ _ E) as (rest & Hne & Hd & Hp & _).
  exfalso. apply H. now exists digits, rest.
Qed.

(** A prefix without line terminators is not cut by the second group. *)
Lemma startsWith_takeWhile (q : codeunit -> bool) (p s : jsstring) :
  forallb q p = true -> startsWith p (takeWhile q s) = startsWith p s.
Proof.
  revert s; induction p as [|c p IH]; intros s Hp; simpl; [reflexivity|].
  simpl in Hp. apply andb_true_iff in Hp as [Hc Hp].
  destruct s as [|d s]; simpl; [reflexivity|].
  destruct (N.eqb c d) eqn:E.
  - apply N.eqb_eq in E; subst d. rewrite Hc. simpl.
    rewrite N.eqb_refl. now rewrite IH.
  - destruct (q d); simpl; [now rewrite E | reflexivity].
Qed.

Lemma coursePath_not_playground (digits rest : jsstring) :
  startsWith (lit "/playground") (coursePath digits rest) = false.
Proof. reflexivity. Qed.

(** ** The default page *)

Lemma general_default (pathname : jsstring) (store : StoreSlices) :
  ~ isCoursePath pathname ->
  startsWithNone topLevelPrefixes pathname = true ->
  buildPageContext pathname store
  = Ok {| pageType := lit "general";
          pageContext := lit "The user is browsing Source Academy." ++ nl
                           :: lit "Route: " ++ pathname |}.
Proof.
  intros Hc Hp. unfold startsWithNone, topLevelPrefixes in Hp.
  cbn [map forallb] in Hp.
  repeat (apply andb_true_iff in Hp as [?H Hp]).
  repeat match goal with
         | H : negb _ = true |- _ => apply negb_true_iff in H
         end.
  unfold buildPageContext.
  rewrite (courseMatch_None _ Hc).
  repeat match goal with
         | H : startsWith _ pathname = false |- _ => rewrite H; clear H
         end.
  reflexivity.
Qed.

(** ** Reads that cannot fail *)

Lemma truthy_not_nullish (v : JsValue) :
  Js.truthy v = true -> Js.nullish v = false.
Proof. destruct v; simpl; congruence. Qed.

Lemma getProp_ok (v : JsValue) (name : jsstring) :
  Js.nullish v = false -> Js.getProp v name = Ok (Js.propOf v name).
Proof. unfold Js.getProp; now intros ->. Qed.

Lemma getPropOpt_ok (v : JsValue) (name : jsstring) :
  Js.getPropOpt v name
  = Ok (if Js.nullish v then JUndefined else Js.propOf v name).
Proof. unfold Js.getPropOpt, Js.getProp; now destruct (Js.nullish v). Qed.

Lemma getIndex_ok (v : JsValue) (i : Z) :
  Js.nullish v = false -> Js.getIndex v i = Ok (Js.elementOf v i).
Proof. unfold Js.getIndex; now intros ->. Qed.

Lemma getIndexOpt_ok (v : JsValue) (i : Z) :
  Js.getIndexOpt v i
  = Ok (if Js.nullish v then JUndefined else Js.elementOf v i).
Proof. unfold Js.getIndexOpt, Js.getIndex; now destruct (Js.nullish v). Qed.

Lemma isOk_true {A} (r : Result A) : isOk r = true <-> exists a, r = Ok a.
Proof.
  destruct r; simpl; split; eauto; try discriminate.
  intros [a H]; discriminate H.
Qed.

Lemma isOk_then_Ok {A B} (r : Result A) (k : A -> B) :
  isOk (a <- r ;; Ok (k a)) = isOk r.
Proof. now destruct r. Qed.

Lemma isOk_mapM_cons {A B} (f : A -> Result B) (a : A) (l : list A) :
  isOk (mapM f (a :: l)) = (isOk (f a) && isOk (mapM f l))%bool.
Proof.
  change (mapM f (a :: l)) with (b <- f a ;; bs <- mapM f l ;; Ok (b :: bs)).
  destruct (f a); [|reflexivity]. now destruct (mapM f l).
Qed.

Lemma isOk_toString : forall v : JsValue, isOk (Js.toString v) = printable v.
Proof.
  fix IH 1. intros [ | | b | n | s | items | fields]; try reflexivity.
  - destruct b; reflexivity.
  - cbn [Js.toString printable].
    rewrite isOk_then_Ok.
    induction items as [|x items IHitems]; [reflexivity|].
    rewrite isOk_mapM_cons, IHitems. cbn [forallb]. f_equal.
    destruct (Js.nullish x) eqn:En; [|apply IH].
    destruct x; try discriminate En; reflexivity.
  - cbn [Js.toString printable].
    now destruct (Js.hasOwn (lit "toString") fields).
Qed.

Lemma isOk_callStripHtml (v : JsValue) :
  isOk (Js.callStripHtml v) = isString v.
Proof. now destruct v. Qed.

(** ** Which reads a branch needs *)

(** Two passes over a list, each of which can fail, succeed exactly when
    every element passes both. *)
Lemma isOk_mapM_mapM {A B C} (f : A -> Result B) (g : B -> Result C)
    (l : list A) :
  isOk (bs <- mapM f l ;; mapM g bs)
  = forallb (fun a => isOk (b <- f a ;; g b)) l.
Proof.
  induction l as [|a l IH]; [reflexivity|].
  cbn [mapM forallb]. fold (mapM f l).
  destruct (f a) as [b|]; cbn [bind]; [|reflexivity].
  destruct (mapM f l) as [bs|]; cbn [bind] in *.
  - cbn [mapM]. fold (mapM g bs).
    destruct (g b) as [c|]; cbn [bind isOk andb]; [|reflexivity].
    rewrite <- IH. now destruct (mapM g bs).
  - rewrite <- IH. cbn [isOk]. now rewrite andb_false_r.
Qed.

Lemma outputEntry_reads (o : JsValue) :
  isOk (text <- outputText o ;; Js.elementText text) = outputEntryReadable o.
Proof.
  unfold outputText, outputEntryReadable, Js.getProp,
    Js.elementText.
  rewrite <- !isOk_toString.
  destruct (Js.nullish o) eqn:En; cbn [bind negb andb]; [reflexivity|].
  destruct (Js.strictEqStr _ (lit "result")); cbn [bind].
  - now destruct (Js.toString (Js.propOf o (lit "value"))).
  - destruct (Js.strictEqStr _ (lit "errors")); cbn [bind].
    + now destruct (Js.nullish (Js.propOf o (lit "errors"))).
    + now destruct (Js.toString o).
Qed.

Lemma forallb_pointwise {A} (f g : A -> bool) (l : list A) :
  (forall a, f a = g a) -> forallb f l = forallb g l.
Proof.
  intros H. induction l as [|a l IH]; simpl; [reflexivity|].
  now rewrite H, IH.
Qed.

Lemma pushOutput_reads (store : StoreSlices) (parts : list jsstring) :
  isOk (pushOutput store parts) = playgroundReadable store.
Proof.
  unfold pushOutput, playgroundReadable.
  destruct (playgroundOutput store) as [|o rest] eqn:Eout; [reflexivity|].
  cbn [length Nat.ltb Nat.leb]. unfold Js.joinValues.
  rewrite (forallb_pointwise outputEntryReadable
             (fun o => isOk (text <- outputText o ;; Js.elementText text)))
    by (intros a; symmetry; apply outputEntry_reads).
  rewrite <- isOk_mapM_mapM.
  destruct (mapM outputText (lastTen (o :: rest))) as [texts|];
    cbn [bind]; [|reflexivity].
  now destruct (mapM Js.elementText texts).
Qed.

Lemma pushGradingQuestion_reads (gq : JsValue) (parts : list jsstring) :
  Js.truthy gq = true ->
  isOk (pushGradingQuestion gq parts) = gradingQuestionReadable gq.
Proof.
  intros Ht. pose proof (truthy_not_nullish _ Ht) as Hn.
  unfold pushGradingQuestion, gradingQuestionReadable, propOfOpt.
  rewrite <- !isOk_toString.
  rewrite !(getProp_ok gq) by exact Hn. cbn [bind].
  rewrite !getPropOpt_ok. cbn [bind]. cbv zeta.
  rewrite <- isOk_callStripHtml.
  set (question := Js.propOf gq (lit "question")).
  set (content := if Js.nullish question then JUndefined else _).
  set (answer := if Js.nullish question then JUndefined else _).
  set (comments := if Js.nullish (Js.propOf gq (lit "grade"))
                   then JUndefined else _).
  set (student := Js.propOf gq (lit "student")).
  destruct (Js.truthy student) eqn:Es.
  - rewrite !(getProp_ok student) by (now apply truthy_not_nullish).
    cbn [bind].
    generalize (Js.toString (Js.propOf student (lit "name")))
               (Js.toString (Js.propOf student (lit "username")))
               (Js.toString comments) (Js.toString answer)
               (Js.callStripHtml content)
               (Js.truthy content) (Js.truthy comments) (Js.nullish answer).
    intros [?|] [?|] [?|] [?|] [?|] [|] [|] [|]; reflexivity.
  - generalize (Js.toString comments) (Js.toString answer)
               (Js.callStripHtml content)
               (Js.truthy content) (Js.truthy comments) (Js.nullish answer).
    intros [?|] [?|] [?|] [|] [|] [|]; reflexivity.
Qed.

Lemma pushGradingDetails_reads (store : StoreSlices) (parts : list jsstring) :
  isOk (pushGradingDetails store parts) = gradingReadable store.
Proof.
  unfold pushGradingDetails, gradingReadable, gradingQuestionOf.
  destruct (currentSubmissionId store) as [submissionId|]; [|reflexivity].
  cbv zeta.
  set (grading := Js.recordGet (gradings store) submissionId).
  destruct (Js.truthy grading) eqn:Eg;
    [|now destruct (currentGradingQuestion store)].
  rewrite getPropOpt_ok, (truthy_not_nullish _ Eg). cbn [bind].
  set (answers := Js.propOf grading (lit "answers")).
  destruct (currentGradingQuestion store) as [questionId|];
    [|now destruct (Js.truthy answers)].
  destruct (Js.truthy answers) eqn:Ea; [|reflexivity].
  rewrite getIndex_ok by (now apply truthy_not_nullish). cbn [bind].
  destruct (Js.truthy (Js.elementOf answers questionId)) eqn:Eq;
    [|reflexivity].
  now apply pushGradingQuestion_reads.
Qed.

Lemma pushAssessmentQuestion_reads (questionId : Z) (question : JsValue)
    (parts : list jsstring) :
  Js.truthy question = true ->
  isOk (pushAssessmentQuestion questionId question parts)
  = assessmentQuestionReadable question.
Proof.
  intros Ht. pose proof (truthy_not_nullish _ Ht) as Hn.
  unfold pushAssessmentQuestion, assessmentQuestionReadable.
  rewrite <- !isOk_toString.
  rewrite !(getProp_ok question) by exact Hn. cbn [bind]. cbv zeta.
  rewrite <- isOk_callStripHtml.
  generalize (Js.toString (Js.propOf question (lit "answer")))
             (Js.callStripHtml (Js.propOf question (lit "content")))
             (Js.truthy (Js.propOf question (lit "content")))
             (Js.strictEqStr (Js.propOf question (lit "type"))
                (lit "programming"))
             (Js.nullish (Js.propOf question (lit "answer"))).
  intros [?|] [?|] [|] [|] [|]; reflexivity.
Qed.

Lemma pushAssessmentDetails_reads (store : StoreSlices)
    (parts : list jsstring) :
  isOk (pushAssessmentDetails store parts) = assessmentReadable store.
Proof.
  unfold pushAssessmentDetails, assessmentReadable, assessmentOf,
    assessmentQuestionOf.
  destruct (currentAssessmentId store) as [assessmentId|]; [|reflexivity].
  cbv zeta.
  set (assessment := Js.recordGet (assessments store) assessmentId).
  destruct (Js.truthy assessment) eqn:Et; [|reflexivity].
  pose proof (truthy_not_nullish _ Et) as Hn.
  rewrite !(getProp_ok assessment) by exact Hn. cbn [bind].
  rewrite <- isOk_callStripHtml.
  set (title := Js.propOf assessment (lit "title")).
  set (longSummary := Js.propOf assessment (lit "longSummary")).
  set (questions := Js.propOf assessment (lit "questions")).
  rewrite <- (isOk_toString title).
  assert (Hq : forall parts2,
             isOk match currentAssessmentQuestion store with
                  | Some questionId =>
                      question <- Js.getIndexOpt questions questionId ;;
                      (if Js.truthy question
                       then pushAssessmentQuestion questionId question parts2
                       else Ok parts2)
                  | None => Ok parts2
                  end
             = match match currentAssessmentQuestion store with
                     | Some questionId =>
                         if Js.truthy
                              (if Js.nullish questions then JUndefined
                               else Js.elementOf questions questionId)
                         then Some (if Js.nullish questions then JUndefined
                                    else Js.elementOf questions questionId)
                         else None
                     | None => None
                     end with
               | Some question => assessmentQuestionReadable question
               | None => true
               end).
  { intros parts2.
    destruct (currentAssessmentQuestion store) as [questionId|];
      [|reflexivity].
    rewrite getIndexOpt_ok. cbn [bind].
    destruct (Js.truthy (if Js.nullish questions then JUndefined
                         else Js.elementOf questions questionId)) eqn:Eq;
      [|reflexivity].
    now apply pushAssessmentQuestion_reads. }
  destruct (Js.truthy title); destruct (Js.toString title);
    destruct (Js.truthy longSummary); destruct (Js.callStripHtml longSummary);
    cbn [bind isOk negb andb orb]; try reflexivity; apply Hq.
Qed.

Lemma courseMatch_None_not_coursePath (pathname : jsstring) :
  courseMatch pathname = None -> ~ isCoursePath pathname.
Proof.
  intros H (digits & rest & Hne & Hd & ->).
  rewrite (courseMatch_coursePath _ _ Hne Hd) in H. discriminate H.
Qed.

Lemma fixedPage_type (ty before after : string) (pathname : jsstring)
    (ctx : PageContext) :
  fixedPage ty before after pathname = Ok ctx -> pageType ctx = lit ty.
Proof. unfold fixedPage. now intros [= <-]. Qed.

Lemma join_two (a b : jsstring) : join [nl] [a; b] = a ++ nl :: b.
Proof. reflexivity. Qed.

Lemma join_three (a b c : jsstring) :
  join [nl] ([a; b] ++ [c]) = (a ++ nl :: b) ++ nl :: c.
Proof. cbn [join app]. now reassoc. Qed.

Lemma activeTabEmpty_code (editorTabs : list EditorTabState)
    (activeTab : option Z) :
  activeTabEmpty editorTabs activeTab = true ->
  getEditorCode editorTabs activeTab = Some [].
Proof.
  unfold activeTabEmpty, getEditorCode.
  destruct activeTab as [i|]; [|discriminate].
  destruct (tabAt editorTabs i) as [tab|] eqn:Et; [|discriminate].
  intros H. apply streq_eq in H. rewrite H.
  destruct editorTabs as [|t ts]; [|reflexivity].
  unfold tabAt in Et. destruct (Z.ltb i 0); [discriminate|].
  now destruct (Z.to_nat i).
Qed.

(** ** Pages with a fixed description *)

Lemma fixedCoursePage_ok (digits rest : jsstring) (store : StoreSlices) :
  digits <> [] -> forallb isDigit digits = true ->
  startsWith (lit "grading") rest = false ->
  startsWithNone courseSubPages rest = false ->
  exists ctx, buildPageContext (coursePath digits rest) store = Ok ctx.
Proof.
  intros Hne Hd Hg Hsub.
  unfold buildPageContext. rewrite coursePath_not_playground.
  rewrite (courseMatch_coursePath _ _ Hne Hd).
  unfold startsWithNone, courseSubPages in Hsub.
  cbn [map forallb] in Hsub. rewrite Hg in Hsub. cbn [negb andb] in Hsub.
  repeat match goal with
         | |- context [startsWith ?p (takeWhile notLineTerminator rest)] =>
             rewrite (startsWith_takeWhile notLineTerminator p rest eq_refl)
         end.
  rewrite Hg.
  repeat match goal with
         | |- context [if startsWith ?p rest then _ else _] =>
             destruct (startsWith p rest); [unfold fixedPage; eauto|]
         end.
  discriminate Hsub.
Qed.

Lemma topLevelPage_ok (pathname : jsstring) (store : StoreSlices) :
  startsWith (lit "/playground") pathname = false ->
  ~ isCoursePath pathname ->
  exists ctx, buildPageContext pathname store = Ok ctx.
Proof.
  intros Hp Hc. unfold buildPageContext.
  rewrite Hp, (courseMatch_None _ Hc).
  repeat match goal with
         | |- context [if startsWith ?p pathname then _ else _] =>
             destruct (startsWith p pathname); [unfold fixedPage; eauto|]
         end.
  eauto.
Qed.

End PageContextLemmas.

(** The code on a state with a submission under review: the question is
    stripped of its markup, and with no active tab the grading editor falls
    back to all its tabs under their headers. *)
Example grading_with_submission :
  buildPageContext (lit "/courses/5/grading/7") storeWithSubmission
  = Ok {| pageType := lit "grading";
          pageContext :=
            join [nl]
              [gradingDescription;
               lit "Route: /courses/5/grading/7";
               nl :: lit "Question being graded:" ++ nl :: lit "Write f";
               nl :: lit "Student's submitted answer:" ++ nl
                 :: lit "```javascript" ++ nl :: lit "f(1);" ++ nl :: lit "```";
               nl :: lit "Grader comments so far: ok";
               nl :: lit "Student: Ann (e01)";
               nl :: lit "Code currently visible in the grading editor:" ++ nl
                 :: lit "```javascript" ++ nl :: lit "// Tab 1" ++ nl
                 :: lit "f(1);" ++ nl :: lit "```"] |}.
Proof. reflexivity. Qed.

(** The playground with one active tab holding ["1+1;"] and one result. *)
Example playground_with_code :
  buildPageContext (lit "/playground") storeWithSubmission
  = Ok {| pageType := lit "playground";
          pageContext :=
            join [nl]
              [playgroundDescription;
               lit "Route: /playground";
               nl :: lit "The user's current code in the editor:" ++ nl
                 :: lit "```javascript" ++ nl :: lit "1+1;" ++ nl :: lit "```";
               nl :: lit "Recent program output:" ++ nl :: lit "2"] |}.
Proof. reflexivity. Qed.

(** C5, as the specification states it, fails: the state is typed [any]
    where the code reads properties, calls [replace] and converts to a
    string without a guard.  Each of these states raises a [TypeError] on
    the route given: a playground output entry that is [null] ([o.type]);
    an output entry with a [toString] of its own that is [null]
    ([String(o)]); a question content under review that is the number 5
    ([html.replace]); a long summary that is the number 5; and a student
    name with a [toString] of its own that is the number 1. *)
Lemma unreadable_values_fail :
  buildPageContext (lit "/playground") storeWithNullOutput = TypeError /\
  buildPageContext (lit "/playground") storeWithUnprintableOutput
  = TypeError /\
  buildPageContext (lit "/courses/5/grading") storeWithNumericContent
  = TypeError /\
  buildPageContext (lit "/courses/5/missions/1") storeWithNumericContent
  = TypeError /\
  buildPageContext (lit "/courses/5/grading") storeWithUnprintableName
  = TypeError.
Proof.
  repeat split; reflexivity.
Qed.

(** C5 (amended): [buildPageContext] returns a result exactly when the
    values typed [any] that the route reads can be read.  Under
    [/playground]: each of the last ten output entries is an object and
    what is printed for it can be converted to a string.  On a grading
    route: the answer under review, if the selection resolves, has a
    question content that is a string and an answer, comments and student
    name and username that can be converted to a string, each where it is
    set.  On an assessment route: the same for the title, the long summary
    and the selected question of the selected assessment.  On every other
    route it returns for every state, and on a route that matches none of
    the known prefixes the page type is ["general"].  Missing ids, records,
    questions, answers, grades, students and tabs never make it fail. *)
Theorem buildPageContext_returns_iff_readable :
  (forall pathname store,
     startsWith (lit "/playground") pathname = true ->
     ((exists ctx, buildPageContext pathname store = Ok ctx)
      <-> playgroundReadable store = true)) /\
  (forall digits rest store,
     digits <> [] -> forallb isDigit digits = true ->
     ((exists ctx,
         buildPageContext (coursePath digits (lit "grading" ++ rest)) store
         = Ok ctx)
      <-> gradingReadable store = true)) /\
  (forall digits rest store,
     digits <> [] -> forallb isDigit digits = true ->
     startsWithNone courseSubPages rest = true ->
     ((exists ctx, buildPageContext (coursePath digits rest) store = Ok ctx)
      <-> assessmentReadable store = true)) /\
  (forall digits rest store,
     digits <> [] -> forallb isDigit digits = true ->
     startsWith (lit "grading") rest = false ->
     startsWithNone courseSubPages rest = false ->
     exists ctx, buildPageContext (coursePath digits rest) store = Ok ctx) /\
  (forall pathname store,
     startsWith (lit "/playground") pathname = false ->
     ~ isCoursePath pathname ->
     exists ctx, buildPageContext pathname store = Ok ctx) /\
  (forall pathname store,
     ~ isCoursePath pathname ->
     startsWithNone topLevelPrefixes pathname = true ->
     exists ctx,
       buildPageContext pathname store = Ok ctx /\
       pageType ctx = lit "general").
Proof.
  split; [|split; [|split; [|split; [|split]]]].
  - intros pathname store Hp.
    rewrite <- isOk_true, <- (pushOutput_reads store
      (pushReplValue store
         (pushEditorCode playgroundCodeHeader
            (getEditorCode (playgroundEditorTabs store)
               (playgroundActiveTab store))
            [playgroundDescription; routeLine pathname]))).
    unfold buildPageContext. rewrite Hp. cbv zeta.
    now rewrite isOk_then_Ok.
  - intros digits rest store Hne Hd.
    rewrite <- isOk_true, <- (pushGradingDetails_reads store
      [gradingDescription;
       routeLine (coursePath digits (lit "grading" ++ rest))]).
    unfold buildPageContext. rewrite coursePath_not_playground.
    rewrite (courseMatch_coursePath _ _ Hne Hd).
    rewrite startsWith_takeWhile by reflexivity. rewrite startsWith_app.
    now rewrite isOk_then_Ok.
  - intros digits rest store Hne Hd Hsub.
    rewrite <- isOk_true, <- (pushAssessmentDetails_reads store
      [assessmentDescription; routeLine (coursePath digits rest)]).
    unfold buildPageContext. rewrite coursePath_not_playground.
    rewrite (courseMatch_coursePath _ _ Hne Hd).
    unfold startsWithNone, courseSubPages in Hsub. cbn [map forallb] in Hsub.
    repeat (apply andb_true_iff in Hsub as [?H Hsub]).
    repeat match goal with
           | H : negb (startsWith ?p rest) = true |- _ =>
               apply negb_true_iff in H;
               rewrite (startsWith_takeWhile notLineTerminator p rest eq_refl);
               rewrite H; clear H
           end.
    now rewrite isOk_then_Ok.
  - intros digits rest store. apply fixedCoursePage_ok.
  - intros pathname store. apply topLevelPage_ok.
  - intros pathname store Hc Hp.
    rewrite (general_default pathname store Hc Hp). eauto.
Qed.

Lemma buildPageContext_returns_iff_readable_witness :
  (exists ctx,
     buildPageContext (lit "/playground") storeWithNumericContent = Ok ctx) /\
  (exists ctx,
     buildPageContext (lit "/courses/5/grading/7") storeWithSubmission
     = Ok ctx) /\
  (exists ctx,
     buildPageContext (lit "/courses/5/grading") storeWithUnselectedRecords
     = Ok ctx) /\
  gradingReadable storeWithUnprintableName = false /\
  (exists ctx,
     buildPageContext (lit "/courses/5/missions/1") storeWithUnprintableName
     = Ok ctx) /\
  (exists ctx,
     buildPageContext (lit "/courses/5/game") storeWithNullOutput = Ok ctx) /\
  (exists ctx,
     buildPageContext (lit "/welcome") storeWithNumericContent = Ok ctx) /\
  (exists ctx,
     buildPageContext (lit "/sicpjs/1.1") storeWithNullOutput = Ok ctx /\
     pageType ctx = lit "general").
Proof.
  destruct buildPageContext_returns_iff_readable
    as (Hplay & Hgrading & Hassessment & Hfixed & Htop & Hgeneral).
  split; [|split; [|split; [|split; [|split; [|split; [|split]]]]]].
  - apply (Hplay (lit "/playground") storeWithNumericContent); reflexivity.
  - apply (Hgrading (lit "5") (lit "/7") storeWithSubmission);
      [discriminate | reflexivity | reflexivity].
  - apply (Hgrading (lit "5") [] storeWithUnselectedRecords);
      [discriminate | reflexivity | reflexivity].
  - destruct (gradingReadable storeWithUnprintableName) eqn:E;
      [|reflexivity].
    apply (Hgrading (lit "5") [] storeWithUnprintableName) in E;
      [|discriminate | reflexivity].
    destruct E as [ctx E]. vm_compute in E. discriminate E.
  - apply (Hassessment (lit "5") (lit "missions/1") storeWithUnprintableName);
      [discriminate | reflexivity | reflexivity | reflexivity].
  - apply (Hfixed (lit "5") (lit "game") storeWithNullOutput);
      [discriminate | reflexivity | reflexivity | reflexivity].
  - apply (Htop (lit "/welcome") storeWithNumericContent); [reflexivity|].
    apply courseMatch_None_not_coursePath. reflexivity.
  - apply (Hgeneral (lit "/sicpjs/1.1") storeWithNullOutput); [|reflexivity].
    apply courseMatch_None_not_coursePath. reflexivity.
Defined.

(** C6, as the specification states it, fails: with no submission selected
    the code of the grading editor is still appended. *)
Lemma grading_editor_code_is_appended :
  currentSubmissionId storeWithGradingCode = None /\
  exists ctx,
    buildPageContext (lit "/courses/5/grading") storeWithGradingCode = Ok ctx /\
    pageContext ctx
    <> gradingDescription ++ nl :: routeLine (lit "/courses/5/grading").
Proof.
  split; [reflexivity|]. eexists; split; [reflexivity|].
  vm_compute. discriminate.
Qed.

(** C6 (amended): on a route [/courses/<id>/grading...] with no submission
    selected, the page type is ["grading"] and the context is the fixed
    description and the route line, followed by the section of the grading
    editor when that editor has code that is not empty, and by nothing
    else: no question, answer, grader comment or student is appended. *)
Theorem grading_without_submission (digits rest : jsstring)
    (store : StoreSlices) :
  digits <> [] -> forallb isDigit digits = true ->
  currentSubmissionId store = None ->
  let pathname := coursePath digits (lit "grading" ++ rest) in
  let fixed := gradingDescription ++ nl :: routeLine pathname in
  buildPageContext pathname store
  = Ok {| pageType := lit "grading";
          pageContext :=
            match getEditorCode (gradingEditorTabs store)
                    (gradingActiveTab store) with
            | Some (c :: code) =>
                fixed ++ nl :: nl :: gradingCodeHeader ++ nl :: codeFenceOpen
                  ++ truncate (c :: code) defaultMaxLen ++ codeFenceClose
            | _ => fixed
            end |}.
Proof.
  intros Hne Hd Hsub pathname fixed. subst fixed pathname.
  unfold buildPageContext. rewrite coursePath_not_playground.
  rewrite (courseMatch_coursePath _ _ Hne Hd).
  rewrite startsWith_takeWhile by reflexivity.
  rewrite startsWith_app.
  unfold pushGradingDetails. rewrite Hsub. cbn [bind].
  unfold pushEditorCode.
  destruct (getEditorCode _ _) as [[|c code]|];
    rewrite ?join_three, ?join_two; reflexivity.
Qed.

Lemma grading_without_submission_witness :
  buildPageContext (lit "/courses/5/grading") emptyStore
  = Ok {| pageType := lit "grading";
          pageContext := gradingDescription ++ nl
                           :: lit "Route: /courses/5/grading" |}.
Proof.
  apply (grading_without_submission (lit "5") [] emptyStore);
    [discriminate | reflexivity | reflexivity].
Defined.

(** C9: the course pages are reached only from a route of the form
    [/courses/<digits>/<rest>], with at least one digit and the slash behind
    the digits; a route that has not this form (["/courses/5"],
    ["/courses/abc/grading"]) and starts with none of the other known
    prefixes gets the page type ["general"]. *)
Theorem course_dispatch_needs_numeric_id (pathname : jsstring)
    (store : StoreSlices) :
  (forall ctx,
     buildPageContext pathname store = Ok ctx ->
     In (pageType ctx) coursePageTypes ->
     isCoursePath pathname) /\
  (~ isCoursePath pathname ->
   startsWithNone topLevelPrefixes pathname = true ->
   exists ctx,
     buildPageContext pathname store = Ok ctx /\
     pageType ctx = lit "general").
Proof.
  split.
  - intros ctx H Hin.
    destruct (courseMatch pathname) as [[digits subPath]|] eqn:Em.
    { destruct (courseMatch_Some _ _ _ Em) as (rest & Hne & Hd & Hp & _).
      now exists digits, rest. }
    exfalso. unfold buildPageContext in H. rewrite Em in H.
    assert (Hty : In (pageType ctx)
                    (map lit ["playground"; "mission-control"; "contributors";
                              "welcome"; "general"]%string)).
    { destruct (startsWith (lit "/playground") pathname).
      - cbv zeta in H. destruct (pushOutput _ _); [|discriminate H].
        cbn [bind] in H. injection H as <-. simpl; auto.
      - repeat match type of H with
               | context [if startsWith ?p pathname then _ else _] =>
                   destruct (startsWith p pathname);
                   [apply fixedPage_type in H; rewrite H; simpl; auto 6|]
               end.
        injection H as <-. simpl; auto 6. }
    revert Hin Hty. generalize (pageType ctx). intros ty Hin Hty.
    vm_compute in Hin, Hty.
    repeat (destruct Hty as [Hty|Hty]; [subst ty|]); try contradiction;
      repeat (destruct Hin as [Hin|Hin]; [discriminate Hin|]);
      contradiction.
  - intros Hc Hp. rewrite (general_default pathname store Hc Hp). eauto.
Qed.

Lemma course_dispatch_needs_numeric_id_witness :
  (exists ctx,
     buildPageContext (lit "/courses/5") emptyStore = Ok ctx /\
     pageType ctx = lit "general") /\
  (exists ctx,
     buildPageContext (lit "/courses/abc/grading") emptyStore = Ok ctx /\
     pageType ctx = lit "general").
Proof.
  split.
  - apply (proj2 (course_dispatch_needs_numeric_id (lit "/courses/5")
                    emptyStore)); [|reflexivity].
    apply courseMatch_None_not_coursePath. reflexivity.
  - apply (proj2 (course_dispatch_needs_numeric_id
                    (lit "/courses/abc/grading") emptyStore)); [|reflexivity].
    apply courseMatch_None_not_coursePath. reflexivity.
Defined.

(** C10: when the active tab of an editor exists and holds the empty
    string, [getEditorCode] returns the empty string, and the context has no
    section for that editor: in the playground, grading and assessment
    branches the parts joined are the description, the route line and what
    the rest of the branch pushes, with no code fence for the editor. *)
Theorem empty_active_tab_omits_editor_code :
  (forall editorTabs activeTab,
     activeTabEmpty editorTabs activeTab = true ->
     getEditorCode editorTabs activeTab = Some []) /\
  (forall pathname store,
     startsWith (lit "/playground") pathname = true ->
     activeTabEmpty (playgroundEditorTabs store) (playgroundActiveTab store)
     = true ->
     buildPageContext pathname store
     = (parts <- pushOutput store
                   (pushReplValue store
                      [playgroundDescription; routeLine pathname]) ;;
        Ok {| pageType := lit "playground";
              pageContext := join [nl] parts |})) /\
  (forall digits rest store,
     digits <> [] -> forallb isDigit digits = true ->
     activeTabEmpty (gradingEditorTabs store) (gradingActiveTab store) = true ->
     let pathname := coursePath digits (lit "grading" ++ rest) in
     buildPageContext pathname store
     = (parts <- pushGradingDetails store
                   [gradingDescription; routeLine pathname] ;;
        Ok {| pageType := lit "grading";
              pageContext := join [nl] parts |})) /\
  (forall digits rest store,
     digits <> [] -> forallb isDigit digits = true ->
     startsWithNone courseSubPages rest = true ->
     activeTabEmpty (assessmentEditorTabs store) (assessmentActiveTab store)
     = true ->
     let pathname := coursePath digits rest in
     buildPageContext pathname store
     = (parts <- pushAssessmentDetails store
                   [assessmentDescription; routeLine pathname] ;;
        Ok {| pageType := lit "assessment";
              pageContext := join [nl] parts |})).
Proof.
  split; [exact activeTabEmpty_code|]. split; [|split].
  - intros pathname store Hp He. unfold buildPageContext.
    rewrite Hp, (activeTabEmpty_code _ _ He). reflexivity.
  - intros digits rest store Hne Hd He pathname. subst pathname.
    unfold buildPageContext. rewrite coursePath_not_playground.
    rewrite (courseMatch_coursePath _ _ Hne Hd).
    rewrite startsWith_takeWhile by reflexivity.
    rewrite startsWith_app, (activeTabEmpty_code _ _ He). reflexivity.
  - intros digits rest store Hne Hd Hsub He pathname. subst pathname.
    unfold buildPageContext. rewrite coursePath_not_playground.
    rewrite (courseMatch_coursePath _ _ Hne Hd).
    unfold startsWithNone, courseSubPages in Hsub. cbn [map forallb] in Hsub.
    repeat (apply andb_true_iff in Hsub as [?H Hsub]).
    repeat match goal with
           | H : negb (startsWith ?p rest) = true |- _ =>
               apply negb_true_iff in H;
               rewrite (startsWith_takeWhile notLineTerminator p rest eq_refl);
               rewrite H; clear H
           end.
    rewrite (activeTabEmpty_code _ _ He). reflexivity.
Qed.

Lemma empty_active_tab_omits_editor_code_witness :
  getEditorCode [ {| value := [] |} ] (Some 0%Z) = Some [] /\
  buildPageContext (lit "/playground") storeWithEmptyTabs
  = Ok {| pageType := lit "playground";
          pageContext := playgroundDescription ++ nl
                           :: lit "Route: /playground" |} /\
  buildPageContext (lit "/courses/5/grading") storeWithEmptyTabs
  = Ok {| pageType := lit "grading";
          pageContext := gradingDescription ++ nl
                           :: lit "Route: /courses/5/grading" |} /\
  buildPageContext (lit "/courses/5/missions/1") storeWithEmptyTabs
  = Ok {| pageType := lit "assessment";
          pageContext := assessmentDescription ++ nl
                           :: lit "Route: /courses/5/missions/1" |}.
Proof.
  destruct empty_active_tab_omits_editor_code as (H1 & H2 & H3 & H4).
  split; [|split; [|split]].
  - apply H1. reflexivity.
  - apply (H2 (lit "/playground") storeWithEmptyTabs); reflexivity.
  - apply (H3 (lit "5") [] storeWithEmptyTabs);
      [discriminate | reflexivity | reflexivity].
  - apply (H4 (lit "5") (lit "missions/1") storeWithEmptyTabs);
      [discriminate | reflexivity | reflexivity | reflexivity].
Defined.

(* ================================================================= *)
(** * Further properties of the helpers *)

Section EditorCode.

Lemma tabHeaders_length (editorTabs : list EditorTabState) : forall i,
  length (tabHeaders editorTabs i) = length editorTabs.
Proof.
  induction editorTabs as [|tab rest IH]; intros i; simpl; [reflexivity|].
  now rewrite IH.
Qed.

Lemma tabHeaders_nth (editorTabs : list EditorTabState) : forall i k tab,
  nth_error editorTabs k = Some tab ->
  nth_error (tabHeaders editorTabs i) k
  = Some (lit "// Tab " ++ natToString (i + k + 1) ++ nl :: value tab).
Proof.
  induction editorTabs as [|t rest IH]; intros i [|k] tab H; simpl in *;
    try discriminate.
  - injection H as <-. now rewrite Nat.add_0_r.
  - rewrite (IH (S i) k tab H).
    now replace (S i + k + 1) with (i + S k + 1) by lia.
Qed.

Lemma tabAt_out_of_range (editorTabs : list EditorTabState) (i : Z) :
  (i < 0 \/ Z.of_nat (length editorTabs) <= i)%Z ->
  tabAt editorTabs i = None.
Proof.
  intros H. unfold tabAt. destruct (Z.ltb i 0) eqn:E; [reflexivity|].
  apply Z.ltb_ge in E. apply nth_error_None. lia.
Qed.

Lemma join_cons_nonempty (sep x : jsstring) (rest : list jsstring) :
  x <> [] -> join sep (x :: rest) <> [].
Proof.
  intros Hx. destruct rest; simpl; [exact Hx|].
  destruct x; [contradiction | discriminate].
Qed.

End EditorCode.

(** X1: [getEditorCode] returns [undefined] exactly when there is no tab;
    with at least one tab it always returns a string, whatever the active
    index is. *)
Theorem getEditorCode_undefined_iff_no_tabs (editorTabs : list EditorTabState)
    (activeTab : option Z) :
  getEditorCode editorTabs activeTab = None <-> editorTabs = [].
Proof.
  split.
  - destruct editorTabs as [|tab rest]; [reflexivity|].
    unfold getEditorCode. cbn [length Nat.eqb].
    destruct (match activeTab with Some i => _ | None => None end);
      [discriminate|].
    cbv zeta.
    destruct (join [nl; nl] (tabHeaders (tab :: rest) 0)) eqn:E;
      [|discriminate].
    exfalso. revert E. cbn [tabHeaders]. apply join_cons_nonempty.
    discriminate.
  - intros ->. reflexivity.
Qed.

(** X2: with at least one tab and an active index that is [null] or out of
    range (negative, or not below the number of tabs), [getEditorCode]
    returns all the tabs in order, joined by a blank line, each under the
    header ["// Tab k"] with [k] counted from 1. *)
Theorem getEditorCode_fallback (editorTabs : list EditorTabState)
    (activeTab : option Z) :
  editorTabs <> [] ->
  (forall i, activeTab = Some i ->
             (i < 0 \/ Z.of_nat (length editorTabs) <= i)%Z) ->
  exists sections,
    getEditorCode editorTabs activeTab = Some (join [nl; nl] sections) /\
    length sections = length editorTabs /\
    forall k tab,
      nth_error editorTabs k = Some tab ->
      nth_error sections k
      = Some (lit "// Tab " ++ natToString (k + 1) ++ nl :: value tab).
Proof.
  intros Hne Hactive. exists (tabHeaders editorTabs 0).
  split; [|split].
  - assert (Hnone : match activeTab with
                    | Some i => tabAt editorTabs i
                    | None => None
                    end = None).
    { destruct activeTab as [i|]; [|reflexivity].
      apply tabAt_out_of_range. now apply Hactive. }
    unfold getEditorCode. rewrite Hnone.
    destruct editorTabs as [|tab rest]; [contradiction|].
    cbn [length Nat.eqb]. cbv zeta.
    destruct (join [nl; nl] (tabHeaders (tab :: rest) 0)) eqn:E;
      [|reflexivity].
    exfalso. revert E. cbn [tabHeaders]. apply join_cons_nonempty.
    discriminate.
  - apply tabHeaders_length.
  - intros k tab H. apply (tabHeaders_nth editorTabs 0 k tab H).
Qed.

Lemma getEditorCode_fallback_witness :
  exists sections,
    getEditorCode [ {| value := lit "a" |}; {| value := lit "b" |} ]
      (Some 2%Z)
    = Some (join [nl; nl] sections) /\
    length sections = 2 /\
    forall k tab,
      nth_error [ {| value := lit "a" |}; {| value := lit "b" |} ] k
      = Some tab ->
      nth_error sections k
      = Some (lit "// Tab " ++ natToString (k + 1) ++ nl :: value tab).
Proof.
  apply (getEditorCode_fallback
           [ {| value := lit "a" |}; {| value := lit "b" |} ] (Some 2%Z)).
  - discriminate.
  - intros i [= <-]. right. simpl. lia.
Defined.

(** X3: the result of [truncate] is never longer than the limit plus the
    sixteen code units of the suffix, and truncating it again with the same
    limit changes nothing. *)
Theorem truncate_bounded_and_stable (text : jsstring) (L : nat) :
  length (truncate text L) <= L + length truncatedSuffix /\
  truncate (truncate text L) L = truncate text L.
Proof.
  unfold truncate at 1 3 4. unfold slice. rewrite Nat.sub_0_r. cbn [skipn].
  destruct (Nat.leb (length text) L) eqn:E.
  - apply Nat.leb_le in E. split; [lia|].
    unfold truncate. apply Nat.leb_le in E. now rewrite E.
  - apply Nat.leb_gt in E.
    assert (Hlen : length (firstn L text) = L)
      by (rewrite length_firstn; lia).
    split; [rewrite length_app, Hlen; lia|].
    unfold truncate, slice. rewrite Nat.sub_0_r. cbn [skipn].
    rewrite length_app, Hlen.
    assert (Hgt : Nat.leb (L + length truncatedSuffix) L = false)
      by (apply Nat.leb_gt; simpl; lia).
    rewrite Hgt. f_equal.
    rewrite <- Hlen at 1. apply firstn_app_length.
Qed.

Section StripHtmlMore.

Lemma SpansDeleted_subset (s t : jsstring) :
  SpansDeleted s t -> forall x, In x t -> In x s.
Proof.
  induction 1 as [ | c s t _ _ IH | s t _ _ IH | body rest t _ _ IH ];
    intros x Hx; simpl in *; auto.
  - destruct Hx; auto.
  - destruct Hx; auto.
  - right. apply in_or_app. right. right. auto.
Qed.

(** Behind the deletion no [<] is followed by a [>]. *)
Lemma SpansDeleted_no_span (s t : jsstring) :
  SpansDeleted s t ->
  forall a b c, t <> a ++ lt_sign :: b ++ gt_sign :: c.
Proof.
  induction 1 as [ | x s t Hx _ IH | s t Hs Hd IH | body rest t _ _ IH ];
    intros a b c E.
  - destruct a; discriminate.
  - destruct a as [|y a]; simpl in E; injection E as -> E.
    + now apply Hx.
    + exact (IH _ _ _ E).
  - apply Hs. apply (SpansDeleted_subset _ _ Hd).
    destruct a as [|y a]; simpl in E.
    + injection E as E; subst t.
      apply in_or_app; right; left; reflexivity.
    + injection E as _ E; subst t.
      apply in_or_app; right; right.
      apply in_or_app; right; left; reflexivity.
  - exact (IH _ _ _ E).
Qed.

(** On a text in which no [<] is followed by a [>] the scan deletes
    nothing. *)
Lemma removeMatches_no_span (t : jsstring) :
  (forall a b c, t <> a ++ lt_sign :: b ++ gt_sign :: c) ->
  removeMatches matchTagAt t 0 = t.
Proof.
  induction t as [|x t IH]; intros H; [reflexivity|].
  cbn [removeMatches].
  assert (Ht : removeMatches matchTagAt t 0 = t).
  { apply IH. intros a b c ->. apply (H (x :: a) b c). reflexivity. }
  destruct (matchTagAt (x :: t)) as [[|k]|] eqn:Em; rewrite ?Ht; auto.
  destruct (matchTagAt_Some _ _ Em) as (body & rest & E & _).
  exfalso. exact (H [] body rest E).
Qed.

Lemma dropWhile_fixed (p : codeunit -> bool) (v : jsstring) :
  (forall c rest, v = c :: rest -> p c = false) -> dropWhile p v = v.
Proof.
  destruct v as [|c rest]; intros H; [reflexivity|].
  simpl. now rewrite (H c rest eq_refl).
Qed.

Lemma trim_idempotent (u : jsstring) : trim (trim u) = trim u.
Proof.
  destruct (trim_spec u) as (l & r & _ & _ & _ & Hhd & Hlast).
  set (v := trim u) in *. unfold trim, trimStart, trimEnd.
  rewrite (dropWhile_fixed _ v Hhd).
  rewrite dropWhile_fixed; [apply rev_involutive|].
  intros c rest E. apply (Hlast c (rev rest)).
  rewrite <- (rev_involutive v), E. reflexivity.
Qed.

Lemma trim_no_span (t : jsstring) :
  (forall a b c, t <> a ++ lt_sign :: b ++ gt_sign :: c) ->
  forall a b c, trim t <> a ++ lt_sign :: b ++ gt_sign :: c.
Proof.
  intros H a b c E.
  destruct (trim_spec t) as (l & r & Ht & _).
  apply (H (l ++ a) b (c ++ r)). rewrite Ht, E. now reassoc.
Qed.

Lemma existsb_gt_false (s : jsstring) :
  existsb (N.eqb gt_sign) s = false -> ~ In gt_sign s.
Proof.
  induction s as [|c s IH]; simpl; [tauto|].
  intros H. apply orb_false_iff in H as [Hc Hs].
  intros [E|Hin]; [|now apply IH].
  subst c. vm_compute in Hc. discriminate Hc.
Qed.

End StripHtmlMore.

(** X4: in the result of [stripHtml] no [<] is followed by a [>]: one pass
    leaves no tag span behind, also where spans were nested or adjacent. *)
Theorem stripHtml_leaves_no_span (html : jsstring) :
  forall a b c, stripHtml html <> a ++ lt_sign :: b ++ gt_sign :: c.
Proof.
  unfold stripHtml. apply trim_no_span.
  apply (SpansDeleted_no_span html).
  apply (removeMatches_spans (length html)). lia.
Qed.

(** X5: [stripHtml] is idempotent: stripping a stripped text gives it back
    unchanged. *)
Theorem stripHtml_idempotent (html : jsstring) :
  stripHtml (stripHtml html) = stripHtml html.
Proof.
  unfold stripHtml at 1.
  rewrite removeMatches_no_span.
  - unfold stripHtml. apply trim_idempotent.
  - unfold stripHtml. apply trim_no_span.
    apply (SpansDeleted_no_span html).
    apply (removeMatches_spans (length html)). lia.
Qed.

(** X6: a text that holds no [>] loses nothing but the white space at its
    ends: a [<] that is never closed is kept, with all that follows it. *)
Theorem stripHtml_unclosed_kept (html : jsstring) :
  existsb (N.eqb gt_sign) html = false -> stripHtml html = trim html.
Proof.
  intros H. unfold stripHtml. rewrite removeMatches_no_span; [reflexivity|].
  intros a b c ->. apply (existsb_gt_false _ H).
  apply in_or_app; right; right. apply in_or_app; right; left; reflexivity.
Qed.

Lemma stripHtml_unclosed_kept_witness :
  stripHtml (lit " if a < b then <b ") = lit "if a < b then <b".
Proof.
  apply (stripHtml_unclosed_kept (lit " if a < b then <b ")). reflexivity.
Defined.

(* ================================================================= *)
(** * Further properties of [MessageRenderer] *)

Section RendererMore.

Lemma startsWith_firstn_true (p s : jsstring) (n : nat) :
  startsWith p (firstn n s) = true -> startsWith p s = true.
Proof.
  revert s n; induction p as [|c p IH]; intros s n H; [reflexivity|].
  destruct n as [|n]; destruct s as [|d s]; simpl in *; try discriminate.
  apply andb_true_iff in H as [Hc Hp]. rewrite Hc. simpl. eauto.
Qed.

(** [indexOf] gives the first occurrence: there is none in front of it. *)
Lemma indexOf_firstn_none (p s : jsstring) : forall k,
  p <> [] -> indexOf p s = Some k -> indexOf p (firstn k s) = None.
Proof.
  induction s as [|c s IH]; intros k Hp; simpl.
  - destruct p; [contradiction|]. discriminate.
  - destruct (startsWith p (c :: s)) eqn:E.
    + intros [= <-]. simpl. destruct p; [contradiction | reflexivity].
    + destruct (indexOf p s) as [j|] eqn:Ei; [|discriminate].
      intros [= <-]. cbn [firstn indexOf].
      destruct (startsWith p (c :: firstn j s)) eqn:E'.
      * apply (startsWith_firstn_true p (c :: s) (S j)) in E'. congruence.
      * now rewrite (IH j Hp eq_refl).
Qed.

Lemma matchCodeBlockAt_body (s : jsstring) g1 g2 len :
  matchCodeBlockAt s = Some (g1, g2, len) -> includes fence g2 = false.
Proof.
  unfold matchCodeBlockAt.
  destruct (startsWith fence s); [|discriminate]. cbv zeta.
  destruct (skipn _ _) as [|c s2]; [discriminate|].
  destruct (N.eqb c nl); [|discriminate].
  destruct (indexOf fence s2) as [k|] eqn:Ei; [|discriminate].
  intros [= _ <- _]. unfold includes.
  rewrite (indexOf_firstn_none fence s2 k); [reflexivity | discriminate | exact Ei].
Qed.

Lemma searchCodeBlock_body (s : jsstring) : forall pos m,
  searchCodeBlock s pos = Some m -> includes fence (group2 m) = false.
Proof.
  induction s as [|c s IH]; intros pos m; cbn [searchCodeBlock];
    destruct (matchCodeBlockAt _) as [[[g1 g2] len]|] eqn:Em;
    try discriminate;
    try (intros [= <-]; exact (matchCodeBlockAt_body _ _ _ _ Em)).
  apply IH.
Qed.

(** What holds of every text of one code unit or more and of the code part
    of every match holds of every part the renderer returns. *)
Lemma renderLoop_Forall (P : Part -> Prop) (messageId content : jsstring) :
  (forall key text, text <> [] -> P (textPart key text)) ->
  (forall i lastIndex m,
     lastIndex <= length content ->
     codeBlockExec content lastIndex = Some m ->
     P (codePart messageId i m)) ->
  forall fuel lastIndex i parts stop parts',
    lastIndex <= length content ->
    Forall P parts ->
    renderLoop fuel messageId content lastIndex i parts = Some (stop, parts') ->
    Forall P parts' /\ stop <= length content.
Proof.
  intros Htext Hcode.
  induction fuel as [|fuel IH]; intros lastIndex i parts stop parts' Hle Hparts;
    cbn [renderLoop]; [discriminate|].
  destruct (codeBlockExec content lastIndex) as [m|] eqn:Ex.
  - destruct (codeBlockExec_Some _ _ _ Hle Ex)
      as (pre & tag & rest & Hs & _ & _ & Hi & Hl & Hbound).
    apply IH; [lia|].
    apply Forall_app; split;
      [|constructor; [exact (Hcode i lastIndex m Hle Ex) | constructor]].
    destruct (Nat.ltb lastIndex (index m)) eqn:El; [|exact Hparts].
    apply Nat.ltb_lt in El.
    apply Forall_app; split; [exact Hparts|].
    constructor; [|constructor]. apply Htext.
    rewrite Hi, (slice_skipn_app _ _ _ _ Hs).
    destruct pre; [simpl in Hi; lia | discriminate].
  - intros [= <- <-]. auto.
Qed.

Lemma MessageRenderer_Forall (P : Part -> Prop) (message : PixelChatMessage) :
  (forall key text, text <> [] -> P (textPart key text)) ->
  (forall i lastIndex m,
     lastIndex <= length (content message) ->
     codeBlockExec (content message) lastIndex = Some m ->
     P (codePart (id message) i m)) ->
  exists parts, MessageRenderer message = Some parts /\ Forall P parts.
Proof.
  intros Htext Hcode.
  destruct (MessageRenderer_total message) as [parts Hrun].
  exists parts; split; [exact Hrun|].
  unfold MessageRenderer in Hrun.
  destruct (renderLoop _ _ _ 0 0 []) as [[stop pushed]|] eqn:Hloop;
    [|discriminate].
  destruct (renderLoop_Forall P _ _ Htext Hcode _ _ _ _ _ _
              (Nat.le_0_l _) (Forall_nil P) Hloop) as [Hpushed Hstop].
  injection Hrun as <-.
  destruct (Nat.ltb stop (length (content message))) eqn:El; [|exact Hpushed].
  apply Nat.ltb_lt in El.
  apply Forall_app; split; [exact Hpushed|].
  constructor; [|constructor]. apply Htext.
  intros E. apply (f_equal (@length _)) in E.
  rewrite length_skipn in E. simpl in E. lia.
Qed.

Lemma toSegment_codePart (messageId : jsstring) (i : nat) (m : RegExpMatch) :
  exists key language,
    (codePart messageId i m = CodeSnippet key (group2 m) language \/
     codePart messageId i m = StaticCodeBlock key (group2 m) language) /\
    language = match group1 m with
               | Some (c :: tag) => c :: tag
               | _ => lit "javascript"
               end.
Proof.
  unfold codePart. cbv zeta.
  destruct (_ || _)%bool; eauto.
Qed.

End RendererMore.

(** X7: the source of every code part holds no fence: a code block ends
    at the nearest fence behind its opening line, and what follows that
    fence is never taken into the block. *)
Theorem code_source_has_no_fence (message : PixelChatMessage) :
  exists parts,
    MessageRenderer message = Some parts /\
    Forall (fun p => match p with
                     | TextDiv _ _ => True
                     | CodeSnippet _ code _ | StaticCodeBlock _ code _ =>
                         includes fence code = false
                     end) parts.
Proof.
  apply MessageRenderer_Forall.
  - intros key text _. exact I.
  - intros i lastIndex m _ Ex.
    apply searchCodeBlock_body in Ex.
    destruct (toSegment_codePart (id message) i m)
      as (key & language & [-> | ->] & _); exact Ex.
Qed.

(** X8: the language of every code part is a run of one or more word
    characters (the tag of the fence, or ["javascript"] where there is
    none), and the part is the bare snippet for ["javascript"] and ["js"]
    and the static block for every other language. *)
Theorem code_language_is_word (message : PixelChatMessage) :
  exists parts,
    MessageRenderer message = Some parts /\
    Forall (fun p => match p with
                     | TextDiv _ _ => True
                     | CodeSnippet _ _ language =>
                         language <> [] /\
                         forallb isWordChar language = true /\
                         (language = lit "javascript" \/ language = lit "js")
                     | StaticCodeBlock _ _ language =>
                         language <> [] /\
                         forallb isWordChar language = true /\
                         language <> lit "javascript" /\ language <> lit "js"
                     end) parts.
Proof.
  apply MessageRenderer_Forall.
  - intros key text _. exact I.
  - intros i lastIndex m Hle Ex.
    destruct (codeBlockExec_Some _ _ _ Hle Ex)
      as (pre & tag & rest & _ & Htag & Hg & _).
    unfold codePart. rewrite Hg. cbv zeta.
    set (language := match tagCapture tag with
                     | Some (c :: t) => c :: t
                     | _ => lit "javascript"
                     end).
    assert (Hne : language <> [])
      by (unfold language; destruct tag; discriminate).
    assert (Hw : forallb isWordChar language = true)
      by (unfold language; destruct tag; [reflexivity | exact Htag]).
    destruct (streq language (lit "javascript")) eqn:E1.
    { apply streq_eq in E1. simpl. auto. }
    destruct (streq language (lit "js")) eqn:E2.
    { apply streq_eq in E2. simpl. auto. }
    simpl. repeat split; auto.
    + intros E. apply streq_eq in E. congruence.
    + intros E. apply streq_eq in E. congruence.
Qed.

(** X9: no text part is empty: the renderer pushes a text part only for
    one code unit or more, so the lines of every text part, joined by
    newline, are a string that is not empty. *)
Theorem text_parts_not_empty (message : PixelChatMessage) :
  exists parts,
    MessageRenderer message = Some parts /\
    Forall (fun p => match p with
                     | TextDiv _ lines => join [nl] lines <> []
                     | _ => True
                     end) parts.
Proof.
  apply MessageRenderer_Forall.
  - intros key text Hne. unfold textPart. now rewrite join_split.
  - intros i lastIndex m _ _. unfold codePart. cbv zeta.
    now destruct (_ || _)%bool.
Qed.

Section Keys.

Lemma uintUnits_inj (d d' : Decimal.uint) :
  uintUnits d = uintUnits d' -> d = d'.
Proof.
  revert d'; induction d as [|d IH|d IH|d IH|d IH|d IH|d IH|d IH|d IH|d IH|d IH];
    intros [|d'|d'|d'|d'|d'|d'|d'|d'|d'|d']; simpl; intros H;
    try discriminate H; try reflexivity;
    injection H as H; f_equal; now apply IH.
Qed.

Lemma uintUnits_digits (d : Decimal.uint) :
  forallb isDigit (uintUnits d) = true.
Proof. induction d; simpl; auto. Qed.

Lemma natToString_inj (n m : nat) : natToString n = natToString m -> n = m.
Proof.
  unfold natToString. intros H. apply uintUnits_inj in H.
  rewrite <- (Unsigned.of_to n), <- (Unsigned.of_to m). now rewrite H.
Qed.

Lemma natToString_not_end (n : nat) : natToString n <> lit "end".
Proof.
  intros H. pose proof (uintUnits_digits (Nat.to_uint n)) as Hd.
  unfold natToString in H. rewrite H in Hd. discriminate Hd.
Qed.

Lemma NoDup_snoc {A} (l : list A) (x : A) :
  NoDup l -> ~ In x l -> NoDup (l ++ [x]).
Proof.
  intros Hl Hx. induction Hl as [|y l Hy Hl IH]; simpl.
  - constructor; [tauto | constructor].
  - constructor.
    + intros Hin. apply in_app_or in Hin as [Hin|[->|[]]]; [tauto|].
      apply Hx. now left.
    + apply IH. intros Hin. apply Hx. now right.
Qed.

Lemma keyBelow_mono (messageId : jsstring) (a b a' b' : nat) (k : jsstring) :
  a <= a' -> b <= b' -> keyBelow messageId a b k -> keyBelow messageId a' b' k.
Proof.
  intros Ha Hb [(n & Hn & ->) | (j & Hj & ->)]; [left | right]; eexists;
    (split; [|reflexivity]); lia.
Qed.

Lemma textKey_fresh (messageId : jsstring) (lastIndex i : nat) :
  ~ keyBelow messageId lastIndex i
      (messageId ++ lit "-text-" ++ natToString lastIndex).
Proof.
  intros [(n & Hn & E) | (j & Hj & E)]; apply app_inv_head in E.
  - apply app_inv_head in E. apply natToString_inj in E. lia.
  - discriminate E.
Qed.

Lemma codeKey_fresh (messageId : jsstring) (lastIndex i : nat) :
  ~ keyBelow messageId lastIndex i
      (messageId ++ lit "-code-" ++ natToString i).
Proof.
  intros [(n & Hn & E) | (j & Hj & E)]; apply app_inv_head in E.
  - discriminate E.
  - apply app_inv_head in E. apply natToString_inj in E. lia.
Qed.

Lemma endKey_fresh (messageId : jsstring) (lastIndex i : nat) :
  ~ keyBelow messageId lastIndex i (messageId ++ lit "-text-end").
Proof.
  intros [(n & Hn & E) | (j & Hj & E)]; apply app_inv_head in E.
  - change (lit "-text-end") with (lit "-text-" ++ lit "end") in E.
    apply app_inv_head in E. symmetry in E.
    exact (natToString_not_end n E).
  - discriminate E.
Qed.

Lemma partKey_codePart (messageId : jsstring) (i : nat) (m : RegExpMatch) :
  partKey (codePart messageId i m)
  = messageId ++ lit "-code-" ++ natToString i.
Proof. unfold codePart. cbv zeta. now destruct (_ || _)%bool. Qed.

Lemma renderLoop_keys (messageId content : jsstring) :
  forall fuel lastIndex i parts stop parts',
    lastIndex <= length content ->
    NoDup (map partKey parts) ->
    (forall k, In k (map partKey parts) -> keyBelow messageId lastIndex i k) ->
    renderLoop fuel messageId content lastIndex i parts = Some (stop, parts') ->
    NoDup (map partKey parts') /\
    exists stop' i',
      forall k, In k (map partKey parts') -> keyBelow messageId stop' i' k.
Proof.
  induction fuel as [|fuel IH];
    intros lastIndex i parts stop parts' Hle Hnd Hkeys;
    cbn [renderLoop]; [discriminate|].
  destruct (codeBlockExec content lastIndex) as [m|] eqn:Ex.
  - destruct (codeBlockExec_Some _ _ _ Hle Ex)
      as (pre & tag & rest & _ & _ & _ & Hi & Hl & Hbound).
    set (parts1 := if Nat.ltb lastIndex (index m) then _ else parts).
    assert (H1 : NoDup (map partKey parts1) /\
                 forall k, In k (map partKey parts1) ->
                           keyBelow messageId (lastIndexAfter m) i k).
    { unfold parts1. destruct (Nat.ltb lastIndex (index m)).
      - rewrite map_app. cbn [map partKey textPart]. split.
        + apply NoDup_snoc; [exact Hnd|].
          intros Hin. exact (textKey_fresh _ _ _ (Hkeys _ Hin)).
        + intros k Hin. apply in_app_or in Hin as [Hin|[<-|[]]].
          * apply (keyBelow_mono messageId lastIndex i); auto; try lia.
          * left. exists lastIndex. split; [lia | reflexivity].
      - split; [exact Hnd|]. intros k Hin.
        apply (keyBelow_mono messageId lastIndex i); auto; lia. }
    destruct H1 as [Hnd1 Hkeys1].
    apply IH; [lia | |].
    + rewrite map_app. cbn [map]. rewrite partKey_codePart.
      apply NoDup_snoc; [exact Hnd1|].
      intros Hin. exact (codeKey_fresh _ _ _ (Hkeys1 _ Hin)).
    + intros k Hin. rewrite map_app in Hin. cbn [map] in Hin.
      rewrite partKey_codePart in Hin.
      apply in_app_or in Hin as [Hin|[<-|[]]].
      * apply (keyBelow_mono messageId (lastIndexAfter m) i); auto.
      * right. exists i. split; [lia | reflexivity].
  - intros [= <- <-]. split; [exact Hnd|]. eauto.
Qed.

End Keys.

(** X10: the keys of the parts of a message are pairwise distinct: the
    key of a text part carries the offset at which it starts (or ["end"]),
    the key of a code part the number of the block. *)
Theorem part_keys_distinct (message : PixelChatMessage) :
  exists parts,
    MessageRenderer message = Some parts /\ NoDup (map partKey parts).
Proof.
  destruct (MessageRenderer_total message) as [parts Hrun].
  exists parts; split; [exact Hrun|].
  unfold MessageRenderer in Hrun.
  destruct (renderLoop _ _ _ 0 0 []) as [[stop pushed]|] eqn:Hloop;
    [|discriminate].
  destruct (renderLoop_keys (id message) (content message) _ 0 0 [] stop
              pushed (Nat.le_0_l _) (NoDup_nil _)
              (fun k (H : In k []) => match H with end) Hloop)
    as (Hnd & stop' & i' & Hkeys).
  injection Hrun as <-.
  destruct (Nat.ltb stop (length (content message))); [|exact Hnd].
  rewrite map_app. cbn [map partKey textPart].
  apply NoDup_snoc; [exact Hnd|].
  intros Hin. exact (endKey_fresh _ _ _ (Hkeys _ Hin)).
Qed.

(* ================================================================= *)
(** * Further properties of [buildPageContext] *)

Ltac in_list := repeat first [left; reflexivity | right].

Ltac use_route H :=
  unfold buildPageContext in H;
  repeat match goal with
         | E : startsWith _ _ = _ |- _ => rewrite E in H; clear E
         | E : courseMatch _ = _ |- _ => rewrite E in H; clear E
         end.

(** X11: the page type is one of thirteen tags and depends on the route
    alone: for a given route every state that gives a result gives the same
    page type. *)
Theorem pageType_depends_on_route_only (pathname : jsstring) :
  exists ty,
    In ty allPageTypes /\
    forall store ctx,
      buildPageContext pathname store = Ok ctx -> pageType ctx = ty.
Proof.
  destruct (startsWith (lit "/playground") pathname) eqn:E0.
  { exists (lit "playground"); split; [unfold allPageTypes; simpl; in_list|].
    intros store ctx H. use_route H. cbv zeta in H.
    destruct (pushOutput _ _); [|discriminate H].
    cbn [bind] in H. now injection H as <-. }
  destruct (courseMatch pathname) as [[digits subPath]|] eqn:Em.
  - destruct (startsWith (lit "grading") subPath) eqn:E1.
    { exists (lit "grading"); split; [unfold allPageTypes; simpl; in_list|].
      intros store ctx H. use_route H.
      destruct (pushGradingDetails _ _); [|discriminate H].
      cbn [bind] in H. now injection H as <-. }
    destruct (startsWith (lit "groundcontrol") subPath) eqn:E2.
    { exists (lit "groundcontrol"); split; [unfold allPageTypes; simpl; in_list|].
      intros store ctx H. use_route H. exact (fixedPage_type _ _ _ _ _ H). }
    destruct (startsWith (lit "adminpanel") subPath) eqn:E3.
    { exists (lit "adminpanel"); split; [unfold allPageTypes; simpl; in_list|].
      intros store ctx H. use_route H. exact (fixedPage_type _ _ _ _ _ H). }
    destruct (startsWith (lit "achievements") subPath) eqn:E4.
    { exists (lit "achievements"); split; [unfold allPageTypes; simpl; in_list|].
      intros store ctx H. use_route H. exact (fixedPage_type _ _ _ _ _ H). }
    destruct (startsWith (lit "sourcecast") subPath) eqn:E5.
    { exists (lit "sourcecast"); split; [unfold allPageTypes; simpl; in_list|].
      intros store ctx H. use_route H. exact (fixedPage_type _ _ _ _ _ H). }
    destruct (startsWith (lit "game") subPath) eqn:E6.
    { exists (lit "game"); split; [unfold allPageTypes; simpl; in_list|].
      intros store ctx H. use_route H. exact (fixedPage_type _ _ _ _ _ H). }
    destruct (startsWith (lit "stories") subPath) eqn:E7.
    { exists (lit "stories"); split; [unfold allPageTypes; simpl; in_list|].
      intros store ctx H. use_route H. exact (fixedPage_type _ _ _ _ _ H). }
    exists (lit "assessment"); split; [unfold allPageTypes; simpl; in_list|].
    intros store ctx H. use_route H.
    destruct (pushAssessmentDetails _ _); [|discriminate H].
    cbn [bind] in H. now injection H as <-.
  - destruct (startsWith (lit "/mission-control") pathname) eqn:E1.
    { exists (lit "mission-control"); split;
        [unfold allPageTypes; simpl; in_list|].
      intros store ctx H. use_route H. exact (fixedPage_type _ _ _ _ _ H). }
    destruct (startsWith (lit "/contributors") pathname) eqn:E2.
    { exists (lit "contributors"); split;
        [unfold allPageTypes; simpl; in_list|].
      intros store ctx H. use_route H. exact (fixedPage_type _ _ _ _ _ H). }
    destruct (startsWith (lit "/welcome") pathname) eqn:E3.
    { exists (lit "welcome"); split; [unfold allPageTypes; simpl; in_list|].
      intros store ctx H. use_route H. exact (fixedPage_type _ _ _ _ _ H). }
    exists (lit "general"); split; [unfold allPageTypes; simpl; in_list|].
    intros store ctx H. use_route H. now injection H as <-.
Qed.

Section Appends.

(** The pushes only append: what is in [parts] stays in front. *)
Ltac crunch :=
  repeat match goal with
         | H : (let _ := _ in _) = Ok _ |- _ => cbv zeta in H
         | H : bind ?r _ = Ok _ |- _ =>
             let E := fresh "E" in
             destruct r eqn:E; cbn [bind] in H; [|discriminate H]
         | H : match ?o with _ => _ end = Ok _ |- _ =>
             let E := fresh "E" in destruct o eqn:E
         | H : Ok _ = Ok _ |- _ => injection H as H; subst
         | H : TypeError = Ok _ |- _ => discriminate H
         end.

Ltac appended :=
  repeat match goal with
         | |- context [if ?b then _ else _] => destruct b
         end;
  first [ now (exists []; rewrite app_nil_r)
        | now (eexists; rewrite <- ?app_assoc; reflexivity) ].

Lemma pushEditorCode_appends (header : jsstring) (code : option jsstring)
    (parts : list jsstring) :
  exists extra, pushEditorCode header code parts = parts ++ extra.
Proof.
  unfold pushEditorCode. destruct code as [[|c rest]|]; appended.
Qed.

Lemma pushReplValue_appends (store : StoreSlices) (parts : list jsstring) :
  exists extra, pushReplValue store parts = parts ++ extra.
Proof.
  unfold pushReplValue. destruct (playgroundReplValue store); appended.
Qed.

Lemma pushOutput_appends (store : StoreSlices) (parts parts' : list jsstring) :
  pushOutput store parts = Ok parts' -> exists extra, parts' = parts ++ extra.
Proof.
  unfold pushOutput. intros H. crunch; appended.
Qed.

Lemma pushGradingQuestion_appends (gq : JsValue) (parts parts' : list jsstring) :
  pushGradingQuestion gq parts = Ok parts' ->
  exists extra, parts' = parts ++ extra.
Proof.
  unfold pushGradingQuestion. intros H. crunch; appended.
Qed.

Lemma pushGradingDetails_appends (store : StoreSlices)
    (parts parts' : list jsstring) :
  pushGradingDetails store parts = Ok parts' ->
  exists extra, parts' = parts ++ extra.
Proof.
  unfold pushGradingDetails. intros H. crunch;
    try (apply pushGradingQuestion_appends in H); auto; appended.
Qed.

Lemma pushAssessmentQuestion_appends (questionId : Z) (question : JsValue)
    (parts parts' : list jsstring) :
  pushAssessmentQuestion questionId question parts = Ok parts' ->
  exists extra, parts' = parts ++ extra.
Proof.
  unfold pushAssessmentQuestion. intros H. crunch; appended.
Qed.

Lemma pushAssessmentDetails_appends (store : StoreSlices)
    (parts parts' : list jsstring) :
  pushAssessmentDetails store parts = Ok parts' ->
  exists extra, parts' = parts ++ extra.
Proof.
  unfold pushAssessmentDetails. intros H. crunch;
    try (apply pushAssessmentQuestion_appends in H as [extra ->]);
    appended.
Qed.

Lemma join_two_more (a b : jsstring) (extra : list jsstring) :
  exists rest,
    join [nl] ([a; b] ++ extra) = a ++ nl :: b ++ rest /\
    (rest = [] \/ exists r, rest = nl :: r).
Proof.
  destruct extra as [|x extra].
  - exists []. split; [now rewrite !app_nil_r | now left].
  - exists (nl :: join [nl] (x :: extra)). split; [|right; eauto].
    cbn [app join]. now reassoc.
Qed.

Lemma fixedPage_route (ty before after : string) (pathname : jsstring)
    (ctx : PageContext) :
  fixedPage ty before after pathname = Ok ctx ->
  pageContext ctx
  = (lit before ++ emdash :: lit after) ++ nl :: routeLine pathname ++ [].
Proof.
  unfold fixedPage. intros [= <-]. cbn [pageContext].
  now rewrite app_nil_r, <- app_assoc.
Qed.

End Appends.

Ltac fixed_route H :=
  rewrite (fixedPage_route _ _ _ _ _ H);
  eexists; exists []; split; [reflexivity | split; [reflexivity | now left]].

(** X12: every context starts with a description of one line, and its
    second line is the route: ["Route: "] and the pathname as given; what
    follows, if anything, starts on a new line. *)
Theorem route_is_second_line (pathname : jsstring) (store : StoreSlices)
    (ctx : PageContext) :
  buildPageContext pathname store = Ok ctx ->
  exists description rest,
    pageContext ctx = description ++ nl :: routeLine pathname ++ rest /\
    forallb (fun c => negb (N.eqb c nl)) description = true /\
    (rest = [] \/ exists r, rest = nl :: r).
Proof.
  intros H. unfold buildPageContext in H.
  destruct (startsWith (lit "/playground") pathname).
  { cbv zeta in H.
    destruct (pushOutput _ _) as [parts|] eqn:E; [|discriminate H].
    cbn [bind] in H. injection H as <-.
    destruct (pushOutput_appends _ _ _ E) as [e3 ->].
    destruct (pushReplValue_appends store
                (pushEditorCode playgroundCodeHeader
                   (getEditorCode (playgroundEditorTabs store)
                      (playgroundActiveTab store))
                   [playgroundDescription; routeLine pathname])) as [e2 ->].
    destruct (pushEditorCode_appends playgroundCodeHeader
                (getEditorCode (playgroundEditorTabs store)
                   (playgroundActiveTab store))
                [playgroundDescription; routeLine pathname]) as [e1 ->].
    rewrite <- !app_assoc.
    destruct (join_two_more playgroundDescription (routeLine pathname)
                (e1 ++ e2 ++ e3)) as (rest & Hj & Hrest).
    exists playgroundDescription, rest. cbn [pageContext]. auto. }
  destruct (courseMatch pathname) as [[digits subPath]|].
  - destruct (startsWith (lit "grading") subPath).
    { destruct (pushGradingDetails _ _) as [parts|] eqn:E; [|discriminate H].
      cbn [bind] in H. injection H as <-.
      destruct (pushGradingDetails_appends _ _ _ E) as [e1 ->].
      destruct (pushEditorCode_appends gradingCodeHeader
                  (getEditorCode (gradingEditorTabs store)
                     (gradingActiveTab store))
                  ([gradingDescription; routeLine pathname] ++ e1))
        as [e2 ->].
      rewrite <- !app_assoc.
      destruct (join_two_more gradingDescription (routeLine pathname)
                  (e1 ++ e2)) as (rest & Hj & Hrest).
      exists gradingDescription, rest. cbn [pageContext]. auto. }
    repeat match type of H with
           | context [if startsWith ?p subPath then _ else _] =>
               destruct (startsWith p subPath); [fixed_route H|]
           end.
    destruct (pushAssessmentDetails _ _) as [parts|] eqn:E; [|discriminate H].
    cbn [bind] in H. injection H as <-.
    destruct (pushAssessmentDetails_appends _ _ _ E) as [e1 ->].
    destruct (pushEditorCode_appends assessmentCodeHeader
                (getEditorCode (assessmentEditorTabs store)
                   (assessmentActiveTab store))
                ([assessmentDescription; routeLine pathname] ++ e1))
      as [e2 ->].
    rewrite <- !app_assoc.
    destruct (join_two_more assessmentDescription (routeLine pathname)
                (e1 ++ e2)) as (rest & Hj & Hrest).
    exists assessmentDescription, rest. cbn [pageContext]. auto.
  - repeat match type of H with
           | context [if startsWith ?p pathname then _ else _] =>
               destruct (startsWith p pathname); [fixed_route H|]
           end.
    injection H as <-. cbn [pageContext].
    exists (lit "The user is browsing Source Academy."), [].
    rewrite app_nil_r. split; [reflexivity | split; [reflexivity | now left]].
Qed.

Lemma route_is_second_line_witness :
  exists description rest,
    pageContext {| pageType := lit "grading";
                   pageContext :=
                     gradingDescription ++ nl
                       :: lit "Route: /courses/5/grading" |}
    = description ++ nl :: routeLine (lit "/courses/5/grading") ++ rest /\
    forallb (fun c => negb (N.eqb c nl)) description = true /\
    (rest = [] \/ exists r, rest = nl :: r).
Proof.
  apply (route_is_second_line (lit "/courses/5/grading") emptyStore).
  reflexivity.
Defined.

(** X13: the pages with a fixed description read no state.  Under a
    course, a sub-path behind the id that starts with [groundcontrol],
    [adminpanel], [achievements], [sourcecast], [game] or [stories] gives a
    result that is the same for every state; so does every route that is
    neither under [/playground] nor of the course form. *)
Theorem fixed_pages_read_no_state :
  (forall digits rest,
     digits <> [] -> forallb isDigit digits = true ->
     startsWith (lit "grading") rest = false ->
     startsWithNone courseSubPages rest = false ->
     exists ctx, forall store,
       buildPageContext (coursePath digits rest) store = Ok ctx) /\
  (forall pathname,
     startsWith (lit "/playground") pathname = false ->
     ~ isCoursePath pathname ->
     exists ctx, forall store, buildPageContext pathname store = Ok ctx).
Proof.
  split.
  - intros digits rest Hne Hd Hg Hsub.
    unfold buildPageContext. rewrite coursePath_not_playground.
    rewrite (courseMatch_coursePath _ _ Hne Hd).
    unfold startsWithNone, courseSubPages in Hsub.
    cbn [map forallb] in Hsub. rewrite Hg in Hsub. cbn [negb andb] in Hsub.
    repeat match goal with
           | |- context [startsWith ?p (takeWhile notLineTerminator rest)] =>
               rewrite (startsWith_takeWhile notLineTerminator p rest eq_refl)
           end.
    rewrite Hg.
    repeat match goal with
           | |- context [if startsWith ?p rest then _ else _] =>
               destruct (startsWith p rest);
               [unfold fixedPage; eexists; intros store; reflexivity|]
           end.
    discriminate Hsub.
  - intros pathname Hp Hc. unfold buildPageContext.
    rewrite Hp, (courseMatch_None _ Hc).
    repeat match goal with
           | |- context [if startsWith ?p pathname then _ else _] =>
               destruct (startsWith p pathname);
               [unfold fixedPage; eexists; intros store; reflexivity|]
           end.
    eexists; intros store; reflexivity.
Qed.

Lemma fixed_pages_read_no_state_witness :
  (exists ctx, forall store,
     buildPageContext (lit "/courses/5/sourcecast/3") store = Ok ctx) /\
  (exists ctx, forall store,
     buildPageContext (lit "/welcome") store = Ok ctx).
Proof.
  split.
  - apply (proj1 fixed_pages_read_no_state (lit "5") (lit "sourcecast/3"));
      [discriminate | reflexivity | reflexivity | reflexivity].
  - apply (proj2 fixed_pages_read_no_state (lit "/welcome"));
      [reflexivity|].
    apply courseMatch_None_not_coursePath. reflexivity.
Defined.

(** X14: a selection that cannot be resolved is no selection.  On a
    grading route, a submission id with no record in [gradings] (or a
    record that is falsy), or a submission without a selected question,
    gives the result of the same state with no submission selected; on an
    assessment route, an assessment id with no record gives the result of
    the same state with no assessment selected. *)
Theorem unresolved_selection_is_no_selection :
  (forall digits rest store submissionId,
     digits <> [] -> forallb isDigit digits = true ->
     currentSubmissionId store = Some submissionId ->
     Js.truthy (Js.recordGet (gradings store) submissionId) = false \/
     currentGradingQuestion store = None ->
     buildPageContext (coursePath digits (lit "grading" ++ rest)) store
     = buildPageContext (coursePath digits (lit "grading" ++ rest))
         (withSubmission store None)) /\
  (forall digits rest store assessmentId,
     digits <> [] -> forallb isDigit digits = true ->
     startsWithNone courseSubPages rest = true ->
     currentAssessmentId store = Some assessmentId ->
     Js.truthy (Js.recordGet (assessments store) assessmentId) = false ->
     buildPageContext (coursePath digits rest) store
     = buildPageContext (coursePath digits rest) (withAssessment store None)).
Proof.
  split.
  - intros digits rest store submissionId Hne Hd Hsel Hmiss.
    unfold buildPageContext. rewrite coursePath_not_playground.
    rewrite (courseMatch_coursePath _ _ Hne Hd).
    rewrite startsWith_takeWhile by reflexivity. rewrite startsWith_app.
    assert (E : forall parts, pushGradingDetails store parts = Ok parts).
    { intros parts. unfold pushGradingDetails. rewrite Hsel. cbv zeta.
      destruct Hmiss as [Hfalsy | Hq]; [now rewrite Hfalsy|].
      destruct (Js.truthy _); [|reflexivity].
      rewrite getPropOpt_ok. cbn [bind]. rewrite Hq.
      now destruct (Js.truthy _). }
    rewrite E. reflexivity.
  - intros digits rest store assessmentId Hne Hd Hsub Hsel Hmiss.
    unfold buildPageContext. rewrite coursePath_not_playground.
    rewrite (courseMatch_coursePath _ _ Hne Hd).
    unfold startsWithNone, courseSubPages in Hsub. cbn [map forallb] in Hsub.
    repeat (apply andb_true_iff in Hsub as [?H Hsub]).
    repeat match goal with
           | H : negb (startsWith ?p rest) = true |- _ =>
               apply negb_true_iff in H;
               rewrite (startsWith_takeWhile notLineTerminator p rest eq_refl);
               rewrite H; clear H
           end.
    assert (E : forall parts, pushAssessmentDetails store parts = Ok parts).
    { intros parts. unfold pushAssessmentDetails. rewrite Hsel. cbv zeta.
      now rewrite Hmiss. }
    rewrite E. reflexivity.
Qed.

Lemma unresolved_selection_is_no_selection_witness :
  buildPageContext (lit "/courses/5/grading/8")
    (withSubmission storeWithSubmission (Some 8%Z))
  = buildPageContext (lit "/courses/5/grading/8")
      (withSubmission storeWithSubmission None) /\
  buildPageContext (lit "/courses/5/missions")
    (withAssessment storeWithSubmission (Some 1%Z))
  = buildPageContext (lit "/courses/5/missions")
      (withAssessment storeWithSubmission None).
Proof.
  split.
  - apply (proj1 unresolved_selection_is_no_selection (lit "5") (lit "/8")
             (withSubmission storeWithSubmission (Some 8%Z)) 8%Z);
      [discriminate | reflexivity | reflexivity | left; reflexivity].
  - apply (proj2 unresolved_selection_is_no_selection (lit "5")
             (lit "missions")
             (withAssessment storeWithSubmission (Some 1%Z)) 1%Z);
      [discriminate | reflexivity | reflexivity | reflexivity | reflexivity].
Defined.

Section LastTen.

Lemma lastTen_app {A} (older recent : list A) :
  length recent = 10 -> lastTen (older ++ recent) = recent.
Proof.
  intros H. unfold lastTen. rewrite length_app, H.
  replace (length older + 10 - 10) with (length older) by lia.
  apply skipn_app_length.
Qed.

Lemma lastTen_short {A} (l : list A) : length l <= 10 -> lastTen l = l.
Proof.
  intros H. unfold lastTen.
  now replace (length l - 10) with 0 by lia.
Qed.

End LastTen.

(** X15: on the playground only the last ten output entries are read:
    with ten entries or more, dropping all but the last ten gives the same
    result (also where an older entry is [null]). *)
Theorem only_last_ten_outputs_are_read (pathname : jsstring)
    (store : StoreSlices) (older recent : list JsValue) :
  startsWith (lit "/playground") pathname = true ->
  playgroundOutput store = older ++ recent ->
  length recent = 10 ->
  buildPageContext pathname store
  = buildPageContext pathname (withPlaygroundOutput store recent).
Proof.
  intros Hp Hout Hlen. unfold buildPageContext. rewrite Hp. cbv zeta.
  assert (E : forall parts,
             pushOutput store parts
             = pushOutput (withPlaygroundOutput store recent) parts).
  { intros parts. unfold pushOutput. cbn [playgroundOutput withPlaygroundOutput].
    rewrite Hout, (lastTen_app older recent Hlen).
    rewrite (lastTen_short recent) by lia.
    rewrite length_app, Hlen.
    now replace (Nat.ltb 0 (length older + 10)) with true
      by (symmetry; apply Nat.ltb_lt; lia). }
  rewrite E. reflexivity.
Qed.

Lemma only_last_ten_outputs_are_read_witness :
  buildPageContext (lit "/playground")
    (withPlaygroundOutput emptyStore
       (JNull :: repeat (JObj [(lit "type", JStr (lit "code"))]) 10))
  = buildPageContext (lit "/playground")
      (withPlaygroundOutput emptyStore
         (repeat (JObj [(lit "type", JStr (lit "code"))]) 10)).
Proof.
  apply (only_last_ten_outputs_are_read (lit "/playground")
           (withPlaygroundOutput emptyStore
              (JNull :: repeat (JObj [(lit "type", JStr (lit "code"))]) 10))
           [JNull] (repeat (JObj [(lit "type", JStr (lit "code"))]) 10));
    reflexivity.
Defined.

(* ================================================================= *)
(** * The widget: [clampPosition] and the handlers of [PixelChatbot] *)

Section WidgetLemmas.

Local Open Scope Q_scope.

(** [Math.min(0, Math.max(lo, v))] *)
Lemma clamp_le_zero (lo v : Q) : Qmin 0 (Qmax lo v) <= 0.
Proof. apply Q.le_min_l. Qed.

Lemma clamp_ge_lo (lo v : Q) : lo <= 0 -> lo <= Qmin 0 (Qmax lo v).
Proof.
  intros H. apply Q.min_glb; [exact H | apply Q.le_max_l].
Qed.

Lemma clamp_pinned (lo v : Q) : 0 <= lo -> Qmin 0 (Qmax lo v) == 0.
Proof.
  intros H. apply Q.min_l.
  apply Qle_trans with lo; [exact H | apply Q.le_max_l].
Qed.

Lemma clamp_inside (lo v : Q) : lo <= v -> v <= 0 -> Qmin 0 (Qmax lo v) == v.
Proof.
  intros H1 H2. rewrite (Q.max_r lo v H1). now apply Q.min_r.
Qed.

Lemma clamp_twice (lo v : Q) :
  Qmin 0 (Qmax lo (Qmin 0 (Qmax lo v))) == Qmin 0 (Qmax lo v).
Proof.
  destruct (Qlt_le_dec 0 lo) as [Hlo|Hlo].
  - rewrite !clamp_pinned; [reflexivity | |]; now apply Qlt_le_weak.
  - apply clamp_inside; [now apply clamp_ge_lo | apply clamp_le_zero].
Qed.

End WidgetLemmas.

(** X16: the clamped position is never to the right of or below the
    origin: both coordinates are at most 0.  Where the container fits the
    window ([minX] and [minY] at most 0) the coordinates are at least [minX]
    and [minY]; where it does not fit, the coordinate is 0. *)
Theorem clampPosition_within_bounds (round : Q -> Q)
    (window : Widget.Viewport) (px py : Q) (chatOpen expanded : bool) :
  let p := Widget.clampPosition round window px py chatOpen expanded in
  let minX := Widget.minX round window chatOpen expanded in
  let minY := Widget.minY round window chatOpen expanded in
  (Widget.x p <= 0 /\ Widget.y p <= 0)%Q /\
  ((minX <= 0)%Q -> (minX <= Widget.x p)%Q) /\
  ((minY <= 0)%Q -> (minY <= Widget.y p)%Q) /\
  ((0 <= minX)%Q -> (Widget.x p == 0)%Q) /\
  ((0 <= minY)%Q -> (Widget.y p == 0)%Q).
Proof.
  cbv zeta. unfold Widget.clampPosition. cbn [Widget.x Widget.y].
  repeat split.
  - apply clamp_le_zero.
  - apply clamp_le_zero.
  - apply clamp_ge_lo.
  - apply clamp_ge_lo.
  - apply clamp_pinned.
  - apply clamp_pinned.
Qed.

(** X17: a position that is within the bounds is returned as it is, and
    clamping a clamped position (same window, same container) changes
    nothing. *)
Theorem clampPosition_stable (round : Q -> Q) (window : Widget.Viewport)
    (px py : Q) (chatOpen expanded : bool) :
  let clamp := fun a b =>
    Widget.clampPosition round window a b chatOpen expanded in
  let minX := Widget.minX round window chatOpen expanded in
  let minY := Widget.minY round window chatOpen expanded in
  ((minX <= px)%Q -> (px <= 0)%Q -> (Widget.x (clamp px py) == px)%Q) /\
  ((minY <= py)%Q -> (py <= 0)%Q -> (Widget.y (clamp px py) == py)%Q) /\
  (Widget.x (clamp (Widget.x (clamp px py)) (Widget.y (clamp px py)))
   == Widget.x (clamp px py))%Q /\
  (Widget.y (clamp (Widget.x (clamp px py)) (Widget.y (clamp px py)))
   == Widget.y (clamp px py))%Q.
Proof.
  cbv zeta. unfold Widget.clampPosition. cbn [Widget.x Widget.y].
  repeat split.
  - apply clamp_inside.
  - apply clamp_inside.
  - apply clamp_twice.
  - apply clamp_twice.
Qed.

Lemma clampPosition_stable_witness :
  (Widget.x (Widget.clampPosition (fun q => q)
               {| Widget.innerWidth := 1280; Widget.innerHeight := 720 |}
               (-100) (-50) true false) == -100)%Q.
Proof.
  apply (proj1 (clampPosition_stable (fun q => q)
                  {| Widget.innerWidth := 1280; Widget.innerHeight := 720 |}
                  (-100) (-50) true false)); vm_compute; discriminate.
Defined.

Section ChatbotInvariant.

Variable round : Q -> Q.

Lemma step_invariant (window : Widget.Viewport) (s : Widget.ChatbotState)
    (e : Widget.Event) :
  Widget.invariant s -> Widget.invariant (Widget.step round window s e).
Proof.
  unfold Widget.invariant.
  destruct s as [pop visible tips snippet expanded [posx posy] dragging].
  cbn [Widget.tipsMessage Widget.isPop Widget.position Widget.x Widget.y].
  intros (Htips & Hx & Hy).
  destruct e; cbn [Widget.step];
    unfold Widget.togglePop, Widget.toggleExpanded, Widget.handleResize,
      Widget.handleDragStart, Widget.handleDrag, Widget.handleDragStop,
      Widget.onMouseEnter, Widget.onMouseLeave, Widget.setIsDragging,
      Widget.setIsDivVisible, Widget.setActiveSnippetId,
      Widget.clampPosition;
    cbn [Widget.tipsMessage Widget.isPop Widget.position Widget.x Widget.y
         Widget.isDragging Widget.isExpanded Widget.isDivVisible
         Widget.activeSnippetId];
    try (destruct dragging); try (destruct pop);
    cbn [negb Widget.tipsMessage Widget.isPop Widget.position Widget.x
         Widget.y];
    repeat split; auto using clamp_le_zero.
Qed.

Lemma run_invariant (events : list (Widget.Viewport * Widget.Event)) :
  forall s,
    Widget.invariant s -> Widget.invariant (Widget.run round s events).
Proof.
  induction events as [|[window e] rest IH]; intros s H; [exact H|].
  cbn [Widget.run]. apply IH. now apply step_invariant.
Qed.

Lemma initial_invariant : Widget.invariant Widget.initialState.
Proof.
  unfold Widget.invariant. repeat split; cbn; discriminate.
Qed.

End ChatbotInvariant.

(** X18: in every state the widget reaches from its first render, by any
    sequence of clicks, drags, resizes and hovers in any windows, the tip
    text is empty while the chat is open and ["Click me for a chat!"] while
    it is closed, and neither coordinate of the position is positive. *)
Theorem chatbot_invariant (round : Q -> Q)
    (events : list (Widget.Viewport * Widget.Event)) :
  Widget.invariant (Widget.run round Widget.initialState events).
Proof.
  apply run_invariant. apply initial_invariant.
Qed.

(** X19: a drag is not a click.  The click that ends a drag (before the
    timer of [handleDragStop] has run) does not open or close the chat;
    once the timer has run a click toggles it again; and a press that is
    released without a move in between toggles it at once. *)
Theorem drag_suppresses_click (round : Q -> Q) (s : Widget.ChatbotState)
    (w1 w2 w3 w4 : Widget.Viewport) (dataX dataY : Q) :
  Widget.isPop
    (Widget.run round s
       [(w1, Widget.Drag); (w2, Widget.DragStop dataX dataY);
        (w3, Widget.ClickIcon)])
  = Widget.isPop s /\
  Widget.isPop
    (Widget.run round s
       [(w1, Widget.Drag); (w2, Widget.DragStop dataX dataY);
        (w3, Widget.DragTimeout); (w4, Widget.ClickIcon)])
  = negb (Widget.isPop s) /\
  Widget.isPop
    (Widget.run round s
       [(w1, Widget.DragStart); (w2, Widget.DragStop dataX dataY);
        (w3, Widget.ClickIcon)])
  = negb (Widget.isPop s).
Proof.
  destruct s as [pop visible tips snippet expanded pos dragging].
  repeat split; destruct pop; reflexivity.
Qed.

(* ================================================================= *)
(** * The chat box: sending, settling and resetting *)

Section ChatBoxLemmas.

Variable uuid : nat -> jsstring.

Lemma withIds_spec (msgs : list PixelChatMessage) : forall calls,
  let result := fst (ChatBox.withIds uuid calls msgs) in
  length result = length msgs /\
  map content result = map content msgs /\
  map role result = map role msgs /\
  (forall k msg, nth_error msgs k = Some msg -> id msg <> [] ->
                 nth_error result k = Some msg) /\
  ((forall n, uuid n <> []) -> Forall (fun msg => id msg <> []) result).
Proof.
  induction msgs as [|msg rest IH]; intros calls; cbn [ChatBox.withIds].
  - cbn. repeat split; auto; intros [|k] msg H; discriminate H.
  - destruct (id msg) as [|c i] eqn:Eid.
    + specialize (IH (S calls)).
      destruct (ChatBox.withIds uuid (S calls) rest) as [rest' calls'].
      cbn [fst] in *. destruct IH as (Hl & Hc & Hr & Hk & Hid).
      cbn [length map content role]. rewrite Hl, Hc, Hr.
      repeat split; auto.
      * intros [|k] m H Hne; cbn in H.
        -- injection H as <-. contradiction.
        -- cbn. now apply Hk.
      * intros Huuid. constructor; [apply Huuid | now apply Hid].
    + specialize (IH calls).
      destruct (ChatBox.withIds uuid calls rest) as [rest' calls'].
      cbn [fst] in *. destruct IH as (Hl & Hc & Hr & Hk & Hid).
      cbn [length map]. rewrite Hl, Hc, Hr.
      repeat split; auto.
      * intros [|k] m H Hne; cbn in H.
        -- now injection H as <-.
        -- cbn. now apply Hk.
      * intros Huuid. constructor; [rewrite Eid; discriminate | now apply Hid].
Qed.


End ChatBoxLemmas.



(** X21: nothing is sent for a blank input or while a reply is awaited:
    when the input holds white space only, or the loading flag is set, a
    key press (Enter or any other key) and a click on Send leave the
    component as it is, with no message added and no request made. *)
Theorem no_send_when_blank_or_loading (uuid : nat -> jsstring)
    (m : ChatBox.Machine) (key : jsstring) (ctx : PageContext) :
  trim (ChatBox.userInput (ChatBox.ui m)) = [] \/
  ChatBox.isLoading (ChatBox.ui m) = true ->
  ChatBox.step uuid m (ChatBox.KeyDown key ctx) = m /\
  ChatBox.step uuid m (ChatBox.ClickSend ctx) = m.
Proof.
  destruct m as [[loading msgs input size calls] n].
  cbn [ChatBox.ui ChatBox.userInput ChatBox.isLoading ChatBox.step].
  unfold ChatBox.keyDown, ChatBox.sendMessage, ChatBox.issued.
  cbn [ChatBox.ui ChatBox.userInput ChatBox.isLoading ChatBox.inFlight].
  intros [Hblank | ->].
  - rewrite Hblank.
    destruct (streq key (lit "Enter") && negb loading)%bool;
      destruct loading; auto.
  - rewrite andb_false_r. auto.
Qed.

Lemma no_send_when_blank_or_loading_witness :
  ChatBox.step (fun n => natToString n)
    {| ChatBox.ui :=
         ChatBox.handleUserInput
           (ChatBox.initialState (fun n => natToString n)) (lit "  ");
       ChatBox.inFlight := 0 |}
    (ChatBox.KeyDown (lit "Enter")
       {| pageType := lit "general"; pageContext := [] |})
  = {| ChatBox.ui :=
         ChatBox.handleUserInput
           (ChatBox.initialState (fun n => natToString n)) (lit "  ");
       ChatBox.inFlight := 0 |}.
Proof.
  apply (no_send_when_blank_or_loading (fun n => natToString n)
           {| ChatBox.ui :=
                ChatBox.handleUserInput
                  (ChatBox.initialState (fun n => natToString n)) (lit "  ");
              ChatBox.inFlight := 0 |}
           (lit "Enter")
           {| pageType := lit "general"; pageContext := [] |}).
  left. reflexivity.
Defined.


(** X23: the transcript is append-only.  Typing, key presses, clicks on
    Send and replies keep every message of the transcript, in order, and add
    at most one message at its end; a reset that fails leaves the component
    as it is. *)
Theorem transcript_is_append_only (uuid : nat -> jsstring)
    (m : ChatBox.Machine) (e : ChatBox.Event) :
  match e with
  | ChatBox.ResetSettled resp =>
      forall rejection,
        Api.initPixelChat resp = inl rejection -> ChatBox.step uuid m e = m
  | _ =>
      exists added,
        ChatBox.messages (ChatBox.ui (ChatBox.step uuid m e))
        = ChatBox.messages (ChatBox.ui m) ++ added /\
        length added <= 1
  end.
Proof.
  destruct m as [[loading msgs input size calls] n].
  assert (Hsame : exists added, msgs = msgs ++ added /\ length added <= 1)
    by (exists []; split; [now rewrite app_nil_r | cbn; lia]).
  destruct e as [value | key ctx | ctx | resp | resp];
    cbn [ChatBox.step ChatBox.ui ChatBox.messages ChatBox.isLoading].
  - exact Hsame.
  - unfold ChatBox.keyDown, ChatBox.sendMessage. cbn [ChatBox.isLoading
      ChatBox.userInput].
    destruct (streq key (lit "Enter") && negb loading)%bool;
      [destruct (trim input)|]; cbn; try exact Hsame.
    eexists; split; [reflexivity | cbn; lia].
  - destruct loading;
      [|unfold ChatBox.sendMessage; cbn [ChatBox.userInput];
        destruct (trim input)]; cbn; try exact Hsame.
    eexists; split; [reflexivity | cbn; lia].
  - destruct n as [|n]; cbn; [exact Hsame|].
    destruct (Api.continuePixelChat resp); cbn;
      eexists; (split; [reflexivity | cbn; lia]).
  - intros rejection Hrej. unfold ChatBox.resetSettle. now rewrite Hrej.
Qed.

(** X24: a reset that succeeds never leaves the transcript empty.  With
    one message or more from the service the transcript is those messages,
    in order, with the same roles and contents, each keeping its id where it
    has one (a message with an empty id gets a fresh one); with none, or
    with the list missing, it is the greeting alone.  The input is cleared,
    the size limit is the one of the service, and the loading flag is not
    touched. *)
Theorem reset_replaces_transcript (uuid : nat -> jsstring)
    (s : ChatBox.State) (body : Api.InitPixelChatResponse) :
  let s' := ChatBox.resetSettle uuid s (inr body) in
  ChatBox.messages s' <> [] /\
  ChatBox.userInput s' = [] /\
  ChatBox.maxContentSize s' = Api.maxContentSize body /\
  ChatBox.isLoading s' = ChatBox.isLoading s /\
  match Api.messages body with
  | Some (msg :: rest) =>
      length (ChatBox.messages s') = length (msg :: rest) /\
      map content (ChatBox.messages s') = map content (msg :: rest) /\
      map role (ChatBox.messages s') = map role (msg :: rest) /\
      (forall k kept,
         nth_error (msg :: rest) k = Some kept -> id kept <> [] ->
         nth_error (ChatBox.messages s') k = Some kept) /\
      ((forall n, uuid n <> []) ->
       Forall (fun m => id m <> []) (ChatBox.messages s'))
  | _ =>
      ChatBox.messages s'
      = [ChatBox.createInitialMessage (uuid (ChatBox.uuidCalls s))]
  end.
Proof.
  cbv zeta. unfold ChatBox.resetSettle.
  destruct (Api.messages body) as [[|msg rest]|].
  - cbn. repeat split; auto; discriminate.
  - pose proof (withIds_spec uuid (msg :: rest) (ChatBox.uuidCalls s))
      as Hspec.
    cbv zeta in Hspec.
    destruct (ChatBox.withIds uuid (ChatBox.uuidCalls s) (msg :: rest))
      as [newMessages calls].
    cbn [fst] in Hspec. cbn [ChatBox.messages ChatBox.userInput
      ChatBox.maxContentSize ChatBox.isLoading].
    destruct Hspec as (Hl & Hrest).
    repeat split; auto; try apply Hrest.
    intros E. rewrite E in Hl. discriminate Hl.
  - cbn. repeat split; auto; discriminate.
Qed.
